(** * atomicstore: a sequential model of the store and of its batch executor

    The development embeds the Go package [atomicstore] (atomicstore.go and
    batch.go).  Store operations are functions in a small monad that threads
    the store, collects the calls made to the registered callbacks and
    records run-time panics and self-deadlock.  The goroutines of
    [batch.Execute] are modelled at job granularity by an explicit schedule;
    the condition-variable protocol of [WaitForDataChange] is modelled by a
    transition function on the states of its two goroutines. *)

From Stdlib Require Import ZArith.
From stdpp Require Import gmap strings list fin_maps.

Local Open Scope Z_scope.

(** ** Values of type [interface{}] *)

(** The dynamic values that occur as keys and values: strings, integers and
    the nil interface.  A type assertion [k.(string)] succeeds exactly on
    [AString]. *)
Inductive any : Type :=
| AString (s : string)
| AInt (n : Z)
| ANil.

Global Instance any_eq_dec : EqDecision any.
Proof. solve_decision. Defined.

Definition any_to_sum (a : any) : string + (Z + unit) :=
  match a with
  | AString s => inl s
  | AInt n => inr (inl n)
  | ANil => inr (inr tt)
  end.

Definition any_of_sum (x : string + (Z + unit)) : any :=
  match x with
  | inl s => AString s
  | inr (inl n) => AInt n
  | inr (inr _) => ANil
  end.

Global Instance any_countable : Countable any.
Proof.
  refine (inj_countable' any_to_sum any_of_sum _).
  intros []; reflexivity.
Defined.

(** [type KV map[interface{}]interface{}] *)
Abbreviation KV := (gmap any any).

Definition is_string (k : any) : bool :=
  match k with AString _ => true | _ => false end.

(** ** Callbacks, events and outcomes *)

(** A callback slot holds a function value or nil.  Function values are
    opaque: a registered handler is known by a name, and calling it is
    recorded as an event. *)
Inductive callback : Type :=
| defaultCallback
| handler (id : nat).

Inductive batchCallback : Type :=
| defaultBatchCallback
| batchHandler (id : nat).

Inductive event : Type :=
| Call (f : callback) (key : string) (val : any)
| CallBatch (f : batchCallback) (kv : KV)
| Broadcast.

Inductive panic : Type :=
| TypeAssertion (k : any)   (* k.(string) on a value that is not a string *)
| NilFunc.                  (* call of a nil function value *)

Inductive outcome (A : Type) : Type :=
| Done (a : A)
| Panicked (p : panic)
| Deadlocked.               (* Lock on the mutex the running thread holds *)

Arguments Done {A} a.
Arguments Panicked {A} p.
Arguments Deadlocked {A}.

(** ** The store *)

Definition uint64_mod : Z := 2 ^ 64.

Record Store : Type := mkStore {
  cond : option bool;       (* nil if not lockable; else whether cond.L is held *)
  count : Z;                (* atomiccounter.Counter, a uint64 *)
  onInsert : option callback;
  onUpdate : option callback;
  onRemove : option callback;
  onBatchInsert : option batchCallback;
  onBatchUpdate : option batchCallback;
  onBatchRemove : option batchCallback;
  data : KV                 (* the embedded sync.Map *)
}.

Definition set_cond (c : option bool) (s : Store) : Store :=
  mkStore c (count s) (onInsert s) (onUpdate s) (onRemove s)
          (onBatchInsert s) (onBatchUpdate s) (onBatchRemove s) (data s).

Definition set_count (n : Z) (s : Store) : Store :=
  mkStore (cond s) n (onInsert s) (onUpdate s) (onRemove s)
          (onBatchInsert s) (onBatchUpdate s) (onBatchRemove s) (data s).

Definition set_data (m : KV) (s : Store) : Store :=
  mkStore (cond s) (count s) (onInsert s) (onUpdate s) (onRemove s)
          (onBatchInsert s) (onBatchUpdate s) (onBatchRemove s) m.

(** ** The monad of store operations *)

Definition M (A : Type) : Type := Store -> outcome A * Store * list event.

Definition ret {A} (a : A) : M A := fun s => (Done a, s, []).

Definition bind {A B} (m : M A) (f : A -> M B) : M B :=
  fun s =>
    match m s with
    | (Done a, s1, e1) =>
        match f a s1 with
        | (o, s2, e2) => (o, s2, e1 ++ e2)
        end
    | (Panicked p, s1, e1) => (Panicked p, s1, e1)
    | (Deadlocked, s1, e1) => (Deadlocked, s1, e1)
    end.

Global Instance M_ret : MRet M := @ret.
Global Instance M_bind : MBind M := fun A B f m => bind m f.

Definition get : M Store := fun s => (Done s, s, []).
Definition modify (f : Store -> Store) : M unit := fun s => (Done tt, f s, []).
Definition emit (e : event) : M unit := fun s => (Done tt, s, [e]).
Definition throw {A} (p : panic) : M A := fun s => (Panicked p, s, []).

(** [k.(string)] *)
Definition assert_string (k : any) : M string :=
  match k with
  | AString x => ret x
  | _ => throw (TypeAssertion k)
  end.

(** Calling the function value held by a callback slot. *)
Definition call (slot : option callback) (key : string) (val : any) : M unit :=
  match slot with
  | Some f => emit (Call f key val)
  | None => throw NilFunc
  end.

(** [if s.lockable() { s.cond.L.Lock(); defer s.cond.L.Unlock() }] around a
    function body.  The deferred unlock also runs when the body panics. *)
Definition locked {A} (body : M A) : M A :=
  fun s =>
    match cond s with
    | None => body s
    | Some true => (Deadlocked, s, [])
    | Some false =>
        match body (set_cond (Some true) s) with
        | (o, s1, e1) => (o, set_cond (Some false) s1, e1)
        end
    end.

(** *** The atomic counter *)

Definition counter_Inc : M unit :=
  modify (fun s => set_count ((count s + 1) mod uint64_mod) s).
Definition counter_Dec : M unit :=
  modify (fun s => set_count ((count s - 1) mod uint64_mod) s).

(** *** sync.Map *)

Definition Load (key : any) : M (any * bool) :=
  fun s =>
    match data s !! key with
    | Some v => (Done (v, true), s, [])
    | None => (Done (ANil, false), s, [])
    end.

Definition MapStore (key val : any) : M unit :=
  modify (fun s => set_data (<[key := val]> (data s)) s).

Definition LoadOrStore (key val : any) : M (any * bool) :=
  fun s =>
    match data s !! key with
    | Some v => (Done (v, true), s, [])
    | None => (Done (val, false), set_data (<[key := val]> (data s)) s, [])
    end.

Definition Delete (key : any) : M unit :=
  modify (fun s => set_data (delete key (data s)) s).

(** [Range] visits each entry of a snapshot of the map once, in an order the
    library leaves open, skipping entries deleted since the snapshot was
    taken.  The order is a parameter of the model. *)
Class RangeOrder : Type := {
  range_order : KV -> list (any * any);
  range_order_perm : forall m, range_order m ≡ₚ map_to_list m
}.

Global Instance canonical_order : RangeOrder.
Proof. refine {| range_order := map_to_list |}. intros m. reflexivity. Defined.

(** The callback of [Range] may write to local variables of its caller;
    they are threaded as an accumulator. *)
Fixpoint range_loop {Acc} (f : any -> any -> Acc -> M (Acc * bool))
    (l : list (any * any)) (acc : Acc) : M Acc :=
  match l with
  | [] => ret acc
  | (k, _) :: rest =>
      s ← get;
      match data s !! k with
      | None => range_loop f rest acc
      | Some v =>
          '(acc1, continue) ← f k v acc;
          if continue : bool then range_loop f rest acc1 else ret acc1
      end
  end.

Definition Range `{RangeOrder} {Acc}
    (f : any -> any -> Acc -> M (Acc * bool)) (acc : Acc) : M Acc :=
  s ← get; range_loop f (range_order (data s)) acc.

(** ** atomicstore.go *)

Record options : Type := mkOptions { unique : bool; runCallbacks : bool }.

Definition lockable (s : Store) : bool :=
  match cond s with Some _ => true | None => false end.

Definition is_nil {A} (slot : option A) : bool :=
  match slot with Some _ => false | None => true end.

Definition Len : M Z := s ← get; ret (count s).

Definition Get (key : any) : M (any * bool) := Load key.

Definition insert (key val : any) (o : options) : M (any * bool) :=
  locked (
    if unique o then
      '(resp, loaded) ← LoadOrStore key val;
      (if negb loaded then
         counter_Inc;;
         s ← get;
         if runCallbacks o && negb (is_nil (onInsert s)) then
           x ← assert_string key; call (onInsert s) x resp
         else ret tt
       else ret tt);;
      ret (resp, loaded)
    else
      '(_, existed) ← Get key;
      MapStore key val;;
      (if negb existed then
         counter_Inc;;
         if runCallbacks o then
           s ← get; x ← assert_string key; call (onInsert s) x val
         else ret tt
       else if runCallbacks o then
         s ← get; x ← assert_string key; call (onUpdate s) x val
       else ret tt);;
      ret (val, existed)).

Definition Insert (key : string) (val : any) : M (any * bool) :=
  insert (AString key) val (mkOptions false true).

Definition InsertUnique (key : string) (val : any) : M (any * bool) :=
  insert (AString key) val (mkOptions true true).

Definition remove (key : any) (o : options) : M (any * bool) :=
  locked (
    '(resp, ok) ← Get key;
    if ok : bool then
      counter_Dec;;
      Delete key;;
      (if runCallbacks o then
         s ← get; x ← assert_string key; call (onRemove s) x resp
       else ret tt);;
      ret (resp, true)
    else ret (ANil, false)).

Definition Remove (key : any) : M bool :=
  '(_, success) ← remove key (mkOptions false true); ret success.

(** The function literal that [GetKeyMap] passes to [Range]; [keys] is the
    local map it fills. *)
Definition GetKeyMap_visit (k v : any) (keys : gmap string bool) :
    M (gmap string bool * bool) :=
  x ← assert_string k; ret (<[x := true]> keys, true).

Definition GetKeyMap `{RangeOrder} : M (gmap string bool) :=
  Range GetKeyMap_visit (∅ : gmap string bool).

Definition NotifyDidChange : M unit :=
  s ← get; if lockable s then emit Broadcast else ret tt.

(** The function literal that [Flush] passes to [Range]. *)
Definition Flush_visit (k v : any) (_ : unit) : M (unit * bool) :=
  x ← assert_string k; Remove (AString x);; ret (tt, true).

Definition Flush `{RangeOrder} : M unit :=
  Range Flush_visit tt;;
  s ← get; if lockable s then emit Broadcast else ret tt.

Definition OnInsertHandler (f : option callback) : M unit :=
  modify (fun s => mkStore (cond s) (count s) f (onUpdate s) (onRemove s)
            (onBatchInsert s) (onBatchUpdate s) (onBatchRemove s) (data s)).

Definition OnUpdateHandler (f : option callback) : M unit :=
  modify (fun s => mkStore (cond s) (count s) (onInsert s) f (onRemove s)
            (onBatchInsert s) (onBatchUpdate s) (onBatchRemove s) (data s)).

Definition OnRemoveHandler (f : option callback) : M unit :=
  modify (fun s => mkStore (cond s) (count s) (onInsert s) (onUpdate s) f
            (onBatchInsert s) (onBatchUpdate s) (onBatchRemove s) (data s)).


Definition OnBatchUpdateHandler (f : option batchCallback) : M unit :=
  modify (fun s => mkStore (cond s) (count s) (onInsert s) (onUpdate s)
            (onRemove s) (onBatchInsert s) f (onBatchRemove s) (data s)).

Definition OnBatchRemoveHandler (f : option batchCallback) : M unit :=
  modify (fun s => mkStore (cond s) (count s) (onInsert s) (onUpdate s)
            (onRemove s) (onBatchInsert s) (onBatchUpdate s) f (data s)).

Definition New (lockable : bool) : Store :=
  mkStore (if lockable then Some false else None) 0
          (Some defaultCallback) (Some defaultCallback) (Some defaultCallback)
          (Some defaultBatchCallback) (Some defaultBatchCallback)
          (Some defaultBatchCallback) ∅.

(** ** batch.go *)

Inductive opp : Type := oppInsert | oppInsertUnique | oppRemove.

Global Instance opp_eq_dec : EqDecision opp.
Proof. solve_decision. Defined.

Record job : Type := mkJob { method : opp; key : any; value : any }.

(** The batch holds its store by pointer; in the model the store is the
    state of the monad and the batch carries the rest. *)
Record batch : Type := mkBatch {
  jobs : list job;
  created : KV;
  updated : KV;
  deleted : KV
}.

(** Modelled from the spec: the method [Len] of [KV], which batch.go calls
    and src/ does not define; a result set is passed to its batch callback
    "if non-empty", so [Len] is the number of entries. *)
Definition KV_Len (m : KV) : Z := Z.of_nat (size m).

(** [b.Lock(); defer b.Unlock()] guards the append against concurrent
    producers; the lock is private to the batch and nothing else is done
    under it, so the queueing functions are functions of the batch alone. *)
Definition batch_Insert (k val : any) (b : batch) : batch :=
  mkBatch (jobs b ++ [mkJob oppInsert k val]) (created b) (updated b) (deleted b).

Definition batch_InsertUnique (k val : any) (b : batch) : batch :=
  mkBatch (jobs b ++ [mkJob oppInsertUnique k val])
          (created b) (updated b) (deleted b).

Definition batch_Remove (k : any) (b : batch) : batch :=
  mkBatch (jobs b ++ [mkJob oppRemove k ANil]) (created b) (updated b) (deleted b).

Definition do (j : job) (b : batch) : M batch :=
  match method j with
  | oppInsert | oppInsertUnique =>
      let unique := bool_decide (method j = oppInsertUnique) in
      '(doc, existed) ← insert (key j) (value j) (mkOptions unique false);
      if negb existed then
        ret (mkBatch (jobs b) (<[key j := doc]> (created b)) (updated b) (deleted b))
      else if negb unique then
        ret (mkBatch (jobs b) (created b) (<[key j := doc]> (updated b)) (deleted b))
      else ret b
  | oppRemove =>
      '(doc, success) ← remove (key j) (mkOptions false false);
      if success : bool then
        ret (mkBatch (jobs b) (created b) (updated b) (<[key j := doc]> (deleted b)))
      else ret b
  end.

(** [Execute] starts one goroutine per job and waits for all of them.  The
    goroutines are modelled at job granularity: each job runs to completion,
    in an order the scheduler chooses.  The order is a parameter. *)
Class Scheduler : Type := {
  schedule : list job -> list job;
  schedule_perm : forall l, schedule l ≡ₚ l
}.

Global Instance queue_order : Scheduler.
Proof. refine {| schedule := fun l => l |}. intros l. reflexivity. Defined.

Fixpoint run_jobs (l : list job) (b : batch) : M batch :=
  match l with
  | [] => ret b
  | j :: rest => b1 ← do j b; run_jobs rest b1
  end.

Definition call_batch (slot : option batchCallback) (kv : KV) : M unit :=
  match slot with
  | Some f => emit (CallBatch f kv)
  | None => throw NilFunc
  end.

Definition Execute `{Scheduler} (b : batch) : M batch :=
  b1 ← run_jobs (schedule (jobs b)) b;
  s ← get;
  (if bool_decide (0 < KV_Len (created b1)) && negb (is_nil (onBatchInsert s))
   then call_batch (onBatchInsert s) (created b1) else ret tt);;
  (if bool_decide (0 < KV_Len (updated b1)) && negb (is_nil (onBatchUpdate s))
   then call_batch (onBatchUpdate s) (updated b1) else ret tt);;
  (if bool_decide (0 < KV_Len (deleted b1)) && negb (is_nil (onBatchRemove s))
   then call_batch (onBatchRemove s) (deleted b1) else ret tt);;
  ret b1.

Definition Batch : batch := mkBatch [] ∅ ∅ ∅.

(** ** Running operations in sequence *)

Definition outcome_of {A} (r : outcome A * Store * list event) : outcome A := r.1.1.
Definition store_of {A} (r : outcome A * Store * list event) : Store := r.1.2.
Definition events_of {A} (r : outcome A * Store * list event) : list event := r.2.

(** ** Vocabulary of the properties *)

(** The mutex of a lockable store is held only while one of the store's own
    functions runs; a caller meets it released. *)
Definition held (s : Store) : bool :=
  match cond s with Some true => true | _ => false end.

(** The state after a mutation, as an update of the state before it. *)
Definition updated_store (n : Z) (m : KV) (s : Store) : Store :=
  set_data m (set_count n s).

(** Deleting the keys of a list of entries, first entry first. *)
Definition delete_keys (l : list (any * any)) (m : KV) : KV :=
  foldl (fun m kv => delete kv.1 m) m l.

(** The calls that removing the entries of [l] makes to the remove
    callback [f]. *)
Definition remove_calls (f : callback) (l : list (any * any)) : list event :=
  omap (fun kv => match kv.1 with
                  | AString x => Some (Call f x kv.2)
                  | _ => None
                  end) l.

(** The counter after [n] decrements. *)
Definition dec_n (n : nat) (c : Z) : Z :=
  Nat.iter n (fun c => (c - 1) mod uint64_mod) c.

(** Every key of the store is a string. *)
Definition string_keys (s : Store) : Prop :=
  map_Forall (fun k _ => is_string k = true) (data s).

(** What the store's own operations maintain: the mutex is released, the
    keys are strings, the callbacks are set and the counter is the number of
    keys as a [uint64]. *)
Record consistent (s : Store) : Prop := mkConsistent {
  cons_free : held s = false;
  cons_keys : string_keys s;
  cons_count : count s = Z.of_nat (size (data s)) mod uint64_mod;
  cons_onInsert : is_nil (onInsert s) = false;
  cons_onUpdate : is_nil (onUpdate s) = false;
  cons_onRemove : is_nil (onRemove s) = false
}.

Inductive op : Type :=
| OpInsert (k : string) (v : any)
| OpInsertUnique (k : string) (v : any)
| OpRemove (k : any)
| OpFlush.

Definition run_op `{RangeOrder} (o : op) : M unit :=
  match o with
  | OpInsert k v => Insert k v;; ret tt
  | OpInsertUnique k v => InsertUnique k v;; ret tt
  | OpRemove k => Remove k;; ret tt
  | OpFlush => Flush
  end.

Fixpoint run_ops `{RangeOrder} (l : list op) : M unit :=
  match l with
  | [] => ret tt
  | o :: rest => run_op o;; run_ops rest
  end.

(** Calling [Remove] on the keys of a list of entries, first entry first. *)
Fixpoint remove_each (l : list (any * any)) : M unit :=
  match l with
  | [] => ret tt
  | (k, _) :: rest => Remove k;; remove_each rest
  end.

(** The call that [Execute] makes to a batch callback for a result set. *)
Definition batch_call (slot : option batchCallback) (kv : KV) : list event :=
  match slot with
  | Some f => if decide (kv = ∅) then [] else [CallBatch f kv]
  | None => []
  end.

(** A job that changes nothing: [InsertUnique] on a key that is present, or
    [Remove] on a key that is absent. *)
Definition noop_job (s : Store) (j : job) : Prop :=
  match method j with
  | oppInsert => False
  | oppInsertUnique => is_Some (data s !! key j)
  | oppRemove => data s !! key j = None
  end.



(** ** WaitForDataChange: the caller, its helper goroutine and the rest

    [WaitForDataChange] runs in two goroutines that share the mutex and the
    condition variable of the store, the context and the channel [wait].
    Each goroutine is a program counter over the statements of the source;
    an action lets one goroutine run its next statement, or lets the
    environment cancel the context or call [NotifyDidChange]. *)
Module Wait.

Inductive caller_pc : Type :=
| CallerStart       (* entered, before the lockable test and the go statement *)
| CallerLock        (* at s.cond.L.Lock() *)
| CallerWait        (* holds the mutex, at s.cond.Wait() *)
| CallerWaiting     (* in Wait: mutex released, suspended on the notify list *)
| CallerWoken       (* in Wait: woken, re-acquiring the mutex *)
| CallerSend        (* holds the mutex, at wait <- true *)
| CallerUnlock      (* at s.cond.L.Unlock() *)
| CallerReturned.

Inductive helper_pc : Type :=
| HelperNotStarted
| HelperSelect      (* at the select *)
| HelperLock        (* case <-ctx.Done(): at s.cond.L.Lock() *)
| HelperBroadcast   (* holds the mutex, at s.cond.Broadcast() *)
| HelperUnlock      (* at s.cond.L.Unlock() *)
| HelperExited.

Inductive owner : Type := Free | ByCaller | ByHelper.

Record state : Type := mkState {
  is_lockable : bool;     (* s.cond != nil *)
  caller : caller_pc;
  helper : helper_pc;
  mutex : owner;          (* s.cond.L *)
  ctx_done : bool;        (* ctx.Done() is closed *)
  wait : bool             (* the one-slot channel wait holds a value *)
}.

Inductive action : Type :=
| ACaller           (* the caller runs its next statement *)
| ASelectDone       (* the helper's select takes case <-ctx.Done() *)
| ASelectWait       (* the helper's select takes case <-wait *)
| AHelper           (* the helper runs its next statement after the select *)
| ANotify           (* some goroutine calls NotifyDidChange *)
| ACancel.          (* the context is cancelled *)

Global Instance caller_pc_eq_dec : EqDecision caller_pc.
Proof. solve_decision. Defined.
Global Instance helper_pc_eq_dec : EqDecision helper_pc.
Proof. solve_decision. Defined.
Global Instance owner_eq_dec : EqDecision owner.
Proof. solve_decision. Defined.
Global Instance action_eq_dec : EqDecision action.
Proof. solve_decision. Defined.

Definition set_caller (c : caller_pc) (st : state) : state :=
  mkState (is_lockable st) c (helper st) (mutex st) (ctx_done st) (wait st).
Definition set_helper (h : helper_pc) (st : state) : state :=
  mkState (is_lockable st) (caller st) h (mutex st) (ctx_done st) (wait st).
Definition set_mutex (m : owner) (st : state) : state :=
  mkState (is_lockable st) (caller st) (helper st) m (ctx_done st) (wait st).
Definition set_done (d : bool) (st : state) : state :=
  mkState (is_lockable st) (caller st) (helper st) (mutex st) d (wait st).
Definition set_wait (w : bool) (st : state) : state :=
  mkState (is_lockable st) (caller st) (helper st) (mutex st) (ctx_done st) w.

(** [s.cond.Broadcast()]: every goroutine suspended in [Wait] is woken; a
    broadcast with nobody waiting is lost. *)
Definition broadcast (st : state) : state :=
  match caller st with
  | CallerWaiting => set_caller CallerWoken st
  | _ => st
  end.

Definition caller_step (st : state) : option state :=
  match caller st with
  | CallerStart =>
      if is_lockable st
      then Some (set_helper HelperSelect (set_caller CallerLock st))
      else Some (set_caller CallerReturned st)
  | CallerLock =>
      match mutex st with
      | Free => Some (set_mutex ByCaller (set_caller CallerWait st))
      | _ => None
      end
  | CallerWait => Some (set_mutex Free (set_caller CallerWaiting st))
  | CallerWaiting => None
  | CallerWoken =>
      match mutex st with
      | Free => Some (set_mutex ByCaller (set_caller CallerSend st))
      | _ => None
      end
  | CallerSend =>
      if wait st then None
      else Some (set_wait true (set_caller CallerUnlock st))
  | CallerUnlock => Some (set_mutex Free (set_caller CallerReturned st))
  | CallerReturned => None
  end.

Definition helper_step (st : state) : option state :=
  match helper st with
  | HelperLock =>
      match mutex st with
      | Free => Some (set_mutex ByHelper (set_helper HelperBroadcast st))
      | _ => None
      end
  | HelperBroadcast => Some (set_helper HelperUnlock (broadcast st))
  | HelperUnlock => Some (set_mutex Free (set_helper HelperExited st))
  | _ => None
  end.

Definition next (a : action) (st : state) : option state :=
  match a with
  | ACaller => caller_step st
  | ASelectDone =>
      match helper st with
      | HelperSelect => if ctx_done st then Some (set_helper HelperLock st) else None
      | _ => None
      end
  | ASelectWait =>
      match helper st with
      | HelperSelect =>
          if wait st then Some (set_wait false (set_helper HelperExited st))
          else None
      | _ => None
      end
  | AHelper => helper_step st
  | ANotify => Some (if is_lockable st then broadcast st else st)
  | ACancel => Some (set_done true st)
  end.

Fixpoint run (acts : list action) (st : state) : option state :=
  match acts with
  | [] => Some st
  | a :: rest =>
      match next a st with
      | Some st1 => run rest st1
      | None => None
      end
  end.

(** The call [s.WaitForDataChange(ctx)] about to start. *)
Definition init (lockable cancelled : bool) : state :=
  mkState lockable CallerStart HelperNotStarted Free cancelled false.

End Wait.

(** The counter agrees with the mapping: it is the number of keys, as a
    [uint64]. *)
Definition count_agrees (s : Store) : Prop :=
  count s = Z.of_nat (size (data s)) mod uint64_mod.

(** What a job that runs on the store [s] does to the store and to the
    batch, read off [do], [insert] and [remove] with callbacks off. *)
Definition store_after (j : job) (s : Store) : Store :=
  match method j, data s !! key j with
  | oppInsert, None | oppInsertUnique, None =>
      updated_store ((count s + 1) mod uint64_mod)
                    (<[key j := value j]> (data s)) s
  | oppInsert, Some _ => set_data (<[key j := value j]> (data s)) s
  | oppInsertUnique, Some _ => s
  | oppRemove, Some _ =>
      updated_store ((count s - 1) mod uint64_mod) (delete (key j) (data s)) s
  | oppRemove, None => s
  end.

Definition batch_after (j : job) (s : Store) (b : batch) : batch :=
  match method j, data s !! key j with
  | oppInsert, None | oppInsertUnique, None =>
      mkBatch (jobs b) (<[key j := value j]> (created b)) (updated b) (deleted b)
  | oppInsert, Some _ =>
      mkBatch (jobs b) (created b) (<[key j := value j]> (updated b)) (deleted b)
  | oppInsertUnique, Some _ => b
  | oppRemove, Some w =>
      mkBatch (jobs b) (created b) (updated b) (<[key j := w]> (deleted b))
  | oppRemove, None => b
  end.

(** How the mutex, the channel and the two program counters of
    [WaitForDataChange] hang together in every state a call on a lockable
    store goes through: the mutex is held by the goroutine whose program
    counter is between its Lock and its Unlock, the helper exists once the
    caller is past the go statement, and the channel holds a value only
    after the caller has sent it and until the helper takes it. *)
Definition coherent (st : Wait.state) : bool :=
  match Wait.mutex st with
  | Wait.ByCaller =>
      match Wait.caller st with
      | Wait.CallerWait | Wait.CallerSend | Wait.CallerUnlock => true
      | _ => false
      end &&
      match Wait.helper st with
      | Wait.HelperBroadcast | Wait.HelperUnlock => false
      | _ => true
      end
  | Wait.ByHelper =>
      match Wait.caller st with
      | Wait.CallerWait | Wait.CallerSend | Wait.CallerUnlock => false
      | _ => true
      end &&
      match Wait.helper st with
      | Wait.HelperBroadcast | Wait.HelperUnlock => true
      | _ => false
      end
  | Wait.Free =>
      match Wait.caller st with
      | Wait.CallerWait | Wait.CallerSend | Wait.CallerUnlock => false
      | _ => true
      end &&
      match Wait.helper st with
      | Wait.HelperBroadcast | Wait.HelperUnlock => false
      | _ => true
      end
  end &&
  match Wait.caller st, Wait.helper st with
  | Wait.CallerStart, Wait.HelperNotStarted => true
  | Wait.CallerStart, _ | _, Wait.HelperNotStarted => false
  | _, _ => true
  end &&
  match Wait.caller st with
  | Wait.CallerUnlock | Wait.CallerReturned =>
      match Wait.helper st with
      | Wait.HelperSelect => Wait.wait st
      | _ => true
      end
  | _ => negb (Wait.wait st)
  end.

(** The actions of the two goroutines of the call, as opposed to those of
    the environment. *)
Definition own_action (a : Wait.action) : bool :=
  match a with
  | Wait.ANotify | Wait.ACancel => false
  | _ => true
  end.

(** The number of statements the two goroutines of the call have left at
    most. *)
Definition remaining (st : Wait.state) : nat :=
  (match Wait.caller st with
   | Wait.CallerStart => 7
   | Wait.CallerLock => 6
   | Wait.CallerWait => 5
   | Wait.CallerWaiting => 4
   | Wait.CallerWoken => 3
   | Wait.CallerSend => 2
   | Wait.CallerUnlock => 1
   | Wait.CallerReturned => 0
   end +
   match Wait.helper st with
   | Wait.HelperNotStarted => 5
   | Wait.HelperSelect => 4
   | Wait.HelperLock => 3
   | Wait.HelperBroadcast => 2
   | Wait.HelperUnlock => 1
   | Wait.HelperExited => 0
   end)%nat.


(** * Properties *)

Local Arguments uint64_mod : simpl never.

Ltac open_store s :=
  let c := fresh "c" in
  destruct s as [c ? ? ? ? ? ? ? ?]; destruct c as [[|]|];
  cbn [held cond] in *; try discriminate.

Ltac unfold_ops :=
  unfold Insert, InsertUnique, Remove, insert, remove, Get, Load, LoadOrStore,
    MapStore, Delete, counter_Inc, counter_Dec, locked, call, assert_string,
    emit, throw, modify, get, mbind, M_bind, bind, mret, M_ret, ret,
    updated_store, set_data, set_count, set_cond; cbn.

(** *** Stepping through a sequence *)

Lemma bind_Done_nil {A B} (m : M A) (f : A -> M B) s a s1 :
  m s = (Done a, s1, []) -> (m ≫= f) s = f a s1.
Proof.
  intros Hm. unfold mbind, M_bind, bind. rewrite Hm.
  by destruct (f a s1) as [[? ?] ?].
Qed.

Lemma bind_Done {A B} (m : M A) (f : A -> M B) s a s1 e1 :
  m s = (Done a, s1, e1) ->
  (m ≫= f) s =
  (outcome_of (f a s1), store_of (f a s1), e1 ++ events_of (f a s1)).
Proof.
  intros Hm. unfold mbind, M_bind, bind. rewrite Hm.
  by destruct (f a s1) as [[? ?] ?].
Qed.

Lemma bind_Panicked {A B} (m : M A) (f : A -> M B) s p s1 e1 :
  m s = (Panicked p, s1, e1) -> (m ≫= f) s = (Panicked p, s1, e1).
Proof. intros Hm. unfold mbind, M_bind, bind. by rewrite Hm. Qed.

Lemma bind_get {A} (f : Store -> M A) s : (get ≫= f) s = f s s.
Proof. by apply bind_Done_nil. Qed.

Lemma GetKeyMap_visit_string x v keys s :
  GetKeyMap_visit (AString x) v keys s = (Done (<[x := true]> keys, true), s, []).
Proof. reflexivity. Qed.

Lemma GetKeyMap_visit_other k v keys s :
  is_string k = false ->
  GetKeyMap_visit k v keys s = (Panicked (TypeAssertion k), s, []).
Proof. by destruct k. Qed.

Lemma Flush_visit_string x v s :
  Flush_visit (AString x) v tt s =
  (Remove (AString x) ≫= fun _ => ret (tt, true)) s.
Proof.
  unfold Flush_visit, assert_string. by rewrite (bind_Done_nil _ _ s x s).
Qed.

Lemma Flush_visit_other k v s :
  is_string k = false ->
  Flush_visit k v tt s = (Panicked (TypeAssertion k), s, []).
Proof. by destruct k. Qed.

Section StoreOps.
Variable s : Store.
Hypothesis Hfree : held s = false.

Lemma insert_unique_present key val rc w :
  data s !! key = Some w ->
  insert key val (mkOptions true rc) s = (Done (w, true), s, []).
Proof.
  intros Hk. open_store s; unfold_ops; cbn in Hk; rewrite Hk; reflexivity.
Qed.

Lemma insert_unique_absent_quiet key val :
  data s !! key = None ->
  insert key val (mkOptions true false) s =
  (Done (val, false),
   updated_store ((count s + 1) mod uint64_mod) (<[key := val]> (data s)) s, []).
Proof.
  intros Hk. open_store s; unfold_ops; cbn in Hk; rewrite Hk; reflexivity.
Qed.

Lemma insert_plain_absent_quiet key val :
  data s !! key = None ->
  insert key val (mkOptions false false) s =
  (Done (val, false),
   updated_store ((count s + 1) mod uint64_mod) (<[key := val]> (data s)) s, []).
Proof.
  intros Hk. open_store s; unfold_ops; cbn in Hk; rewrite Hk; reflexivity.
Qed.

Lemma insert_plain_present_quiet key val w :
  data s !! key = Some w ->
  insert key val (mkOptions false false) s =
  (Done (val, true), set_data (<[key := val]> (data s)) s, []).
Proof.
  intros Hk. open_store s; unfold_ops; cbn in Hk; rewrite Hk; reflexivity.
Qed.

Lemma InsertUnique_present k val w :
  data s !! AString k = Some w ->
  InsertUnique k val s = (Done (w, true), s, []).
Proof. apply insert_unique_present. Qed.

Lemma InsertUnique_absent k val :
  data s !! AString k = None ->
  InsertUnique k val s =
  (Done (val, false),
   updated_store ((count s + 1) mod uint64_mod)
                 (<[AString k := val]> (data s)) s,
   match onInsert s with Some f => [Call f k val] | None => [] end).
Proof.
  intros Hk. open_store s; unfold_ops; cbn in Hk; rewrite Hk; cbn;
    destruct onInsert0; reflexivity.
Qed.

Lemma Insert_absent k val f :
  data s !! AString k = None -> onInsert s = Some f ->
  Insert k val s =
  (Done (val, false),
   updated_store ((count s + 1) mod uint64_mod)
                 (<[AString k := val]> (data s)) s,
   [Call f k val]).
Proof.
  intros Hk Hf. open_store s; unfold_ops; cbn in Hk, Hf; rewrite Hk; cbn;
    subst; reflexivity.
Qed.

Lemma Insert_present k val w f :
  data s !! AString k = Some w -> onUpdate s = Some f ->
  Insert k val s =
  (Done (val, true), set_data (<[AString k := val]> (data s)) s,
   [Call f k val]).
Proof.
  intros Hk Hf. open_store s; unfold_ops; cbn in Hk, Hf; rewrite Hk; cbn;
    subst; reflexivity.
Qed.

Lemma remove_absent key o :
  data s !! key = None -> remove key o s = (Done (ANil, false), s, []).
Proof.
  intros Hk. open_store s; unfold_ops; cbn in Hk; rewrite Hk; reflexivity.
Qed.

Lemma remove_present_quiet key w :
  data s !! key = Some w ->
  remove key (mkOptions false false) s =
  (Done (w, true),
   updated_store ((count s - 1) mod uint64_mod) (delete key (data s)) s, []).
Proof.
  intros Hk. open_store s; unfold_ops; cbn in Hk; rewrite Hk; reflexivity.
Qed.

Lemma Remove_absent key :
  data s !! key = None -> Remove key s = (Done false, s, []).
Proof.
  intros Hk. open_store s; unfold_ops; cbn in Hk; rewrite Hk; reflexivity.
Qed.

Lemma Remove_present_string k w f :
  data s !! AString k = Some w -> onRemove s = Some f ->
  Remove (AString k) s =
  (Done true,
   updated_store ((count s - 1) mod uint64_mod)
                 (delete (AString k) (data s)) s,
   [Call f k w]).
Proof.
  intros Hk Hf. open_store s; unfold_ops; cbn in Hk, Hf; rewrite Hk; cbn;
    subst; reflexivity.
Qed.

(** A present key that is not a string: the entry is deleted and the
    counter decremented before the type assertion of the callback's
    argument fails. *)
Lemma Remove_present_other key w :
  data s !! key = Some w -> is_string key = false ->
  Remove key s =
  (Panicked (TypeAssertion key),
   updated_store ((count s - 1) mod uint64_mod) (delete key (data s)) s, []).
Proof.
  intros Hk Hs. open_store s; unfold_ops; cbn in Hk; rewrite Hk; cbn;
    destruct key; try discriminate; reflexivity.
Qed.
End StoreOps.

(** ** Range loops *)

Lemma lookup_delete_keys l : forall (m : KV) k,
  delete_keys l m !! k = if decide (k ∈ l.*1) then None else m !! k.
Proof.
  induction l as [|[k0 v0] l IH]; intros m k; cbn.
  - case_decide as Hin; [by apply elem_of_nil in Hin | done].
  - unfold delete_keys in IH. rewrite IH.
    destruct (decide (k = k0)) as [->|Hne].
    + rewrite lookup_delete_eq.
      destruct (decide (k0 ∈ l.*1)), (decide (k0 ∈ k0 :: l.*1)) as [|Hn];
        try done; exfalso; apply Hn; by left.
    + rewrite lookup_delete_ne by done.
      destruct (decide (k ∈ l.*1)) as [Hi|Hi],
               (decide (k ∈ k0 :: l.*1)) as [Hj|Hj]; try done; exfalso.
      * apply Hj. by right.
      * apply elem_of_cons in Hj as [?|?]; done.
Qed.

Lemma delete_keys_all (l : list (any * any)) (m : KV) :
  l ≡ₚ map_to_list m -> delete_keys l m = ∅.
Proof.
  intros Hl. apply map_eq. intros k.
  rewrite lookup_delete_keys, lookup_empty. case_decide as Hin; [done|].
  destruct (m !! k) as [v|] eqn:Hk; [|done].
  exfalso. apply Hin. apply list_elem_of_fmap. exists (k, v). split; [done|].
  rewrite Hl. by apply elem_of_map_to_list.
Qed.

Lemma updated_store_twice n1 m1 n2 m2 s :
  updated_store n2 m2 (updated_store n1 m1 s) = updated_store n2 m2 s.
Proof. destruct s; reflexivity. Qed.

Lemma updated_store_id s : updated_store (count s) (data s) s = s.
Proof. destruct s; reflexivity. Qed.

Lemma set_data_updated m s : set_data m s = updated_store (count s) m s.
Proof. destruct s; reflexivity. Qed.

Lemma dec_n_S n c : dec_n (S n) c = dec_n n ((c - 1) mod uint64_mod).
Proof. unfold dec_n. by rewrite Nat.iter_succ_r. Qed.

Lemma dec_n_mod n x :
  dec_n n (x mod uint64_mod) = (x - Z.of_nat n) mod uint64_mod.
Proof.
  revert x. induction n as [|n IH]; intros x.
  - cbn. by rewrite Z.sub_0_r.
  - rewrite dec_n_S, IH.
    replace (x `mod` uint64_mod - 1 - Z.of_nat n)
      with (x `mod` uint64_mod - Z.of_nat (S n)) by lia.
    by rewrite Zminus_mod_idemp_l.
Qed.

(** Flushing a snapshot whose entries are all present and keyed by strings:
    every entry is removed through [Remove]. *)
Lemma Flush_loop f l : forall s,
  held s = false -> onRemove s = Some f -> NoDup l.*1 ->
  (forall k v, (k, v) ∈ l -> is_string k = true /\ data s !! k = Some v) ->
  range_loop Flush_visit l tt s =
  (Done tt,
   updated_store (dec_n (length l) (count s)) (delete_keys l (data s)) s,
   remove_calls f l).
Proof.
  induction l as [|[k v] l IH]; intros s Hfree Hf Hnd Hl.
  - cbn. unfold ret. by rewrite updated_store_id.
  - destruct (Hl k v) as [Hstr Hk]; [by left|].
    destruct k as [x| |]; try discriminate.
    apply NoDup_cons in Hnd as [Hx Hnd].
    cbn [range_loop].
    unfold mbind at 1, M_bind at 1, bind at 1, get. rewrite Hk.
    unfold mbind at 1, M_bind at 1, bind at 1.
    unfold Flush_visit, assert_string.
    unfold mbind at 1, M_bind at 1, bind at 1, ret at 1.
    unfold mbind at 1, M_bind at 1, bind at 1.
    rewrite (Remove_present_string s Hfree x v f Hk Hf).
    unfold ret at 1. rewrite IH; try done.
    + cbn [length]. rewrite dec_n_S.
      rewrite updated_store_twice. reflexivity.
    + intros k' v' Hin. destruct (Hl k' v') as [? Hk']; [by right|].
      split; [done|]. cbn. rewrite lookup_delete_ne; [done|].
      intros <-. apply Hx. apply list_elem_of_fmap. by exists (AString x, v').
Qed.

Lemma range_order_elem `{RangeOrder} (m : KV) k v :
  (k, v) ∈ range_order m <-> m !! k = Some v.
Proof. rewrite range_order_perm. apply elem_of_map_to_list. Qed.

Lemma range_order_NoDup `{RangeOrder} (m : KV) : NoDup (range_order m).*1.
Proof. rewrite range_order_perm. apply NoDup_fst_map_to_list. Qed.

Lemma range_order_length `{RangeOrder} (m : KV) :
  length (range_order m) = size m.
Proof. rewrite range_order_perm. apply length_map_to_list. Qed.

Lemma range_order_empty `{RangeOrder} : range_order ∅ = [].
Proof.
  apply Permutation_nil_r. rewrite range_order_perm.
  by rewrite map_to_list_empty.
Qed.

(** [Flush] on a store keyed by strings, with a remove callback. *)
Lemma Flush_string_keys `{RangeOrder} s f :
  held s = false -> onRemove s = Some f -> string_keys s ->
  Flush s =
  (Done tt,
   updated_store (dec_n (size (data s)) (count s)) ∅ s,
   remove_calls f (range_order (data s)) ++
   (if lockable s then [Broadcast] else [])).
Proof.
  intros Hfree Hf Hkeys. unfold Flush, Range.
  unfold mbind at 1, M_bind at 1, bind at 1.
  unfold mbind at 1, M_bind at 1, bind at 1, get at 1.
  rewrite (Flush_loop f); try done.
  - rewrite range_order_length, delete_keys_all by apply range_order_perm.
    cbn [app].
    unfold mbind, M_bind, bind, get.
    replace (lockable (updated_store (dec_n (size (data s)) (count s)) ∅ s))
      with (lockable s) by (by destruct s).
    destruct (lockable s); cbn; by rewrite ?app_nil_r.
  - apply range_order_NoDup.
  - intros k v Hin%range_order_elem. split; [|done]. by apply (Hkeys k v).
Qed.

(** ** The counter and the mapping *)

Lemma New_consistent l : consistent (New l).
Proof.
  split; try done. by destruct l.
Qed.

Lemma consistent_insert s k v :
  consistent s -> data s !! AString k = None ->
  consistent (updated_store ((count s + 1) mod uint64_mod)
                            (<[AString k := v]> (data s)) s).
Proof.
  intros [Hfree Hkeys Hcount Hi Hu Hr] Hk. split; try by destruct s.
  - unfold string_keys. cbn. by apply map_Forall_insert_2.
  - cbn. rewrite map_size_insert_None by done. rewrite Hcount.
    rewrite Zplus_mod_idemp_l. f_equal. lia.
Qed.

Lemma consistent_update s k v w :
  consistent s -> data s !! AString k = Some w ->
  consistent (set_data (<[AString k := v]> (data s)) s).
Proof.
  intros [Hfree Hkeys Hcount Hi Hu Hr] Hk. split; try by destruct s.
  - unfold string_keys. cbn. by apply map_Forall_insert_2.
  - cbn. rewrite map_size_insert_Some by done. done.
Qed.

Lemma consistent_delete s k w :
  consistent s -> data s !! k = Some w ->
  consistent (updated_store ((count s - 1) mod uint64_mod)
                            (delete k (data s)) s).
Proof.
  intros [Hfree Hkeys Hcount Hi Hu Hr] Hk. split; try by destruct s.
  - unfold string_keys. cbn. by apply map_Forall_delete.
  - cbn. rewrite Hcount, Zminus_mod_idemp_l. f_equal.
    assert (size (data s) ≠ 0%nat).
    { intros H0%map_size_empty_inv. by rewrite H0, lookup_empty in Hk. }
    rewrite map_size_delete_Some by done. lia.
Qed.

Lemma consistent_flushed s :
  consistent s ->
  consistent (updated_store (dec_n (size (data s)) (count s)) ∅ s).
Proof.
  intros [Hfree Hkeys Hcount Hi Hu Hr]. split; try by destruct s.
  cbn. rewrite Hcount, dec_n_mod, map_size_empty. f_equal. lia.
Qed.

Lemma is_nil_false {A} (slot : option A) :
  is_nil slot = false -> exists f, slot = Some f.
Proof. destruct slot; [eauto | discriminate]. Qed.

Lemma run_op_consistent `{RangeOrder} o s :
  consistent s ->
  exists s1 e, run_op o s = (Done tt, s1, e) /\ consistent s1.
Proof.
  intros Hc. pose proof Hc as [Hfree Hkeys Hcount Hi Hu Hr].
  apply is_nil_false in Hi as [fi Hi], Hu as [fu Hu], Hr as [fr Hr].
  destruct o as [k v|k v|k|]; cbn [run_op];
    try unfold mbind at 1, M_bind at 1, bind at 1.
  - destruct (data s !! AString k) as [w|] eqn:Hk.
    + rewrite (Insert_present s Hfree k v w fu Hk Hu).
      eexists _, _. split; [reflexivity|]. by eapply consistent_update.
    + rewrite (Insert_absent s Hfree k v fi Hk Hi).
      eexists _, _. split; [reflexivity|]. by apply consistent_insert.
  - destruct (data s !! AString k) as [w|] eqn:Hk.
    + rewrite (InsertUnique_present s Hfree k v w Hk).
      eexists _, _. split; [reflexivity|]. done.
    + rewrite (InsertUnique_absent s Hfree k v Hk).
      eexists _, _. split; [reflexivity|]. by apply consistent_insert.
  - destruct (data s !! k) as [w|] eqn:Hk.
    + pose proof (Hkeys k w Hk) as Hstr. destruct k as [x| |]; try discriminate.
      rewrite (Remove_present_string s Hfree x w fr Hk Hr).
      eexists _, _. split; [reflexivity|]. by eapply consistent_delete.
    + rewrite (Remove_absent s Hfree k Hk).
      eexists _, _. split; [reflexivity|]. done.
  - rewrite (Flush_string_keys s fr Hfree Hr Hkeys).
    eexists _, _. split; [reflexivity|]. by apply consistent_flushed.
Qed.

Lemma run_ops_consistent `{RangeOrder} l : forall s,
  consistent s ->
  exists s1 e, run_ops l s = (Done tt, s1, e) /\ consistent s1.
Proof.
  induction l as [|o l IH]; intros s Hc.
  - eexists _, _. split; [reflexivity|done].
  - cbn [run_ops]. unfold mbind at 1, M_bind at 1, bind at 1.
    destruct (run_op_consistent o s Hc) as (s1 & e1 & -> & Hc1).
    destruct (IH s1 Hc1) as (s2 & e2 & -> & Hc2).
    eexists _, _. split; [reflexivity|done].
Qed.

Lemma Len_eq s : Len s = (Done (count s), s, []).
Proof. reflexivity. Qed.

Lemma Get_eq key s :
  Get key s = (match data s !! key with
               | Some v => Done (v, true)
               | None => Done (ANil, false)
               end, s, []).
Proof. unfold Get, Load. by destruct (data s !! key). Qed.

(** ** Claims about the store *)

(** C1.  For every sequence of [Insert], [InsertUnique], [Remove] and
    [Flush] applied to a store made by [New], every operation returns and
    [Len] is the number of keys in the mapping, as long as that number is
    representable in the [uint64] that [Len] returns. *)
Theorem C1_Len_is_number_of_keys `{RangeOrder} (l : bool) (ops : list op) :
  Z.of_nat (size (data (store_of (run_ops ops (New l))))) < uint64_mod ->
  outcome_of (run_ops ops (New l)) = Done tt /\
  outcome_of (Len (store_of (run_ops ops (New l)))) =
    Done (Z.of_nat (size (data (store_of (run_ops ops (New l)))))).
Proof.
  destruct (run_ops_consistent ops (New l) (New_consistent l))
    as (s1 & e & -> & Hc).
  cbn [store_of outcome_of fst snd]. intros Hsize. split; [done|].
  rewrite Len_eq. cbn. f_equal. rewrite (cons_count _ Hc).
  apply Z.mod_small. lia.
Qed.

Lemma C1_Len_is_number_of_keys_witness :
  let ops := [OpInsert "a" (AInt 1); OpInsertUnique "b" (AInt 2);
              OpInsert "a" (AInt 3); OpRemove (AString "a"); OpFlush;
              OpInsertUnique "c" (AInt 4)] in
  outcome_of (run_ops ops (New true)) = Done tt /\
  outcome_of (Len (store_of (run_ops ops (New true)))) =
    Done (Z.of_nat (size (data (store_of (run_ops ops (New true)))))).
Proof.
  intros ops. apply (C1_Len_is_number_of_keys true ops). vm_compute. reflexivity.
Defined.

(** C2.  On [New(true)] the calls [Insert("k","v1")], [Insert("k","v2")],
    [Get("k")], [Remove("k")], [Get("k")] return [("v1", false)],
    [("v2", true)], [("v2", true)], [true] and a pair whose flag is
    [false]. *)
Theorem C2_scenario :
  exists anything,
    outcome_of
      ((r1 ← Insert "k" (AString "v1");
        r2 ← Insert "k" (AString "v2");
        r3 ← Get (AString "k");
        r4 ← Remove (AString "k");
        r5 ← Get (AString "k");
        ret (r1, r2, r3, r4, r5)) (New true)) =
    Done ((AString "v1", false), (AString "v2", true), (AString "v2", true),
          true, (anything, false)).
Proof. exists ANil. vm_compute. reflexivity. Qed.

(** C4.  [InsertUnique] never overwrites: on a store where [k] is absent,
    [InsertUnique(k, v1)] then [InsertUnique(k, v2)] leave [v1] at [k]. *)
Theorem C4_InsertUnique_never_overwrites s (k : string) (v1 v2 : any) :
  held s = false -> data s !! AString k = None ->
  outcome_of ((InsertUnique k v1;; InsertUnique k v2;; Get (AString k)) s) =
  Done (v1, true).
Proof.
  intros Hfree Hk.
  unfold mbind at 1, M_bind at 1, bind at 1.
  rewrite (InsertUnique_absent s Hfree k v1 Hk).
  unfold mbind at 1, M_bind at 1, bind at 1.
  set (s1 := updated_store _ _ s).
  assert (Hfree1 : held s1 = false) by (by destruct s).
  assert (Hk1 : data s1 !! AString k = Some v1) by apply lookup_insert_eq.
  rewrite (InsertUnique_present s1 Hfree1 k v2 v1 Hk1).
  rewrite Get_eq, Hk1. reflexivity.
Qed.

Lemma C4_InsertUnique_never_overwrites_witness :
  outcome_of ((InsertUnique "k" (AInt 1);; InsertUnique "k" (AInt 2);;
               Get (AString "k")) (New true)) = Done (AInt 1, true).
Proof.
  apply (C4_InsertUnique_never_overwrites (New true) "k" (AInt 1) (AInt 2));
    reflexivity.
Defined.

(** C5.  On a key that is present, [InsertUnique] returns the stored value
    with [existedBefore = true], leaves the store (mapping and counter) as it
    was and calls no callback; the batch job [InsertUnique] on such a key
    leaves the store and all result sets of the batch as they were. *)
Theorem C5_InsertUnique_present_is_noop s (key val w : any) :
  held s = false -> data s !! key = Some w ->
  (forall k, key = AString k ->
     InsertUnique k val s = (Done (w, true), s, [])) /\
  (forall b, do (mkJob oppInsertUnique key val) b s = (Done b, s, [])).
Proof.
  intros Hfree Hk. split.
  - intros k ->. by apply InsertUnique_present.
  - intros b. unfold do. simpl.
    unfold mbind, M_bind, bind.
    by rewrite (insert_unique_present s Hfree key val false w Hk).
Qed.

Lemma C5_InsertUnique_present_is_noop_witness :
  let s := store_of (Insert "k" (AInt 1) (New true)) in
  (forall k, AString "k" = AString k ->
     InsertUnique k (AInt 2) s = (Done (AInt 1, true), s, [])) /\
  (forall b, do (mkJob oppInsertUnique (AString "k") (AInt 2)) b s =
             (Done b, s, [])).
Proof.
  intros s.
  apply (C5_InsertUnique_present_is_noop s (AString "k") (AInt 2) (AInt 1));
    reflexivity.
Defined.

(** C6 as stated fails: a key that is not a string, put in the store by a
    batch, is deleted by [Remove] and counted down, and then the call panics
    at [key.(string)] instead of returning [true]. *)
Lemma C6_counterexample :
  let s := store_of (Execute (batch_Insert (AInt 42) (AString "x") Batch)
                             (New true)) in
  data s !! AInt 42 = Some (AString "x") /\
  Remove (AInt 42) s =
    (Panicked (TypeAssertion (AInt 42)), updated_store 0 ∅ s, []).
Proof. vm_compute. split; reflexivity. Qed.

(** C6, amended.  With a remove callback registered, for every key that is
    a string or is absent: if the key is present, [Remove] deletes it,
    decrements the counter, calls the remove callback once with the key and
    the value removed, and returns [true]; if it is absent, [Remove] returns
    [false] and changes nothing. *)
Theorem C6_Remove s (key : any) (f : callback) :
  held s = false -> onRemove s = Some f ->
  is_string key = true \/ data s !! key = None ->
  match data s !! key with
  | Some w =>
      exists k, key = AString k /\
        Remove key s =
        (Done true,
         updated_store ((count s - 1) mod uint64_mod) (delete key (data s)) s,
         [Call f k w])
  | None => Remove key s = (Done false, s, [])
  end.
Proof.
  intros Hfree Hf Hkey. destruct (data s !! key) as [w|] eqn:Hk.
  - destruct Hkey as [Hstr|]; [|done].
    destruct key as [k| |]; try discriminate.
    exists k. split; [done|]. by apply Remove_present_string.
  - by apply Remove_absent.
Qed.

Lemma C6_Remove_witness :
  let s := store_of (Insert "k" (AInt 1) (New true)) in
  exists k, AString "k" = AString k /\
    Remove (AString "k") s =
    (Done true,
     updated_store ((count s - 1) mod uint64_mod)
                   (delete (AString "k") (data s)) s,
     [Call defaultCallback k (AInt 1)]).
Proof.
  intros s.
  apply (C6_Remove s (AString "k") defaultCallback);
    [reflexivity | reflexivity | left; reflexivity].
Defined.

Lemma remove_each_eq f l : forall s,
  held s = false -> onRemove s = Some f -> NoDup l.*1 ->
  (forall k v, (k, v) ∈ l -> is_string k = true /\ data s !! k = Some v) ->
  remove_each l s =
  (Done tt,
   updated_store (dec_n (length l) (count s)) (delete_keys l (data s)) s,
   remove_calls f l).
Proof.
  induction l as [|[k v] l IH]; intros s Hfree Hf Hnd Hl.
  - cbn. unfold ret. by rewrite updated_store_id.
  - destruct (Hl k v) as [Hstr Hk]; [by left|].
    destruct k as [x| |]; try discriminate.
    apply NoDup_cons in Hnd as [Hx Hnd].
    cbn [remove_each]. unfold mbind at 1, M_bind at 1, bind at 1.
    rewrite (Remove_present_string s Hfree x v f Hk Hf).
    rewrite IH; try done.
    + cbn [length]. rewrite dec_n_S, updated_store_twice. reflexivity.
    + intros k' v' Hin. destruct (Hl k' v') as [? Hk']; [by right|].
      split; [done|]. cbn. rewrite lookup_delete_ne; [done|].
      intros <-. apply Hx. apply list_elem_of_fmap. by exists (AString x, v').
Qed.

Lemma GetKeyMap_empty `{RangeOrder} s :
  data s = ∅ -> GetKeyMap s = (Done ∅, s, []).
Proof.
  intros Hd. unfold GetKeyMap, Range, mbind, M_bind, bind, get.
  rewrite Hd, range_order_empty. reflexivity.
Qed.

Lemma NotifyDidChange_eq s :
  NotifyDidChange s = (Done tt, s, if lockable s then [Broadcast] else []).
Proof.
  unfold NotifyDidChange, mbind, M_bind, bind, get.
  by destruct (lockable s).
Qed.

Lemma lockable_updated_store n m s :
  lockable (updated_store n m s) = lockable s.
Proof. by destruct s. Qed.

(** C7 as stated fails: with a key that is not a string in the store (put
    there by a batch), [Flush] panics at [k.(string)] and the key stays. *)
Lemma C7_counterexample :
  let s := store_of (Execute (batch_Insert (AInt 42) (AString "x") Batch)
                             (New true)) in
  outcome_of (Flush s) = Panicked (TypeAssertion (AInt 42)) /\
  outcome_of (Len (store_of (Flush s))) = Done 1 /\
  data (store_of (Flush s)) !! AInt 42 = Some (AString "x").
Proof. vm_compute. repeat split; reflexivity. Qed.

(** C7, amended.  On every store whose keys are all strings and that has a
    remove callback, [Flush] does what calling [Remove] on each key in turn
    and then [NotifyDidChange] does: the remove callback is called once per
    entry with the key and its value, the counter is decremented once per
    entry, one change notification follows, and the mapping is empty
    afterwards, so [GetKeyMap] is empty; [Len] is then 0 if the counter
    agreed with the number of keys before. *)
Theorem C7_Flush `{RangeOrder} s (f : callback) :
  held s = false -> onRemove s = Some f -> string_keys s ->
  Flush s = (remove_each (range_order (data s));; NotifyDidChange) s /\
  outcome_of (Flush s) = Done tt /\
  store_of (Flush s) =
    updated_store (dec_n (size (data s)) (count s)) ∅ s /\
  events_of (Flush s) =
    remove_calls f (range_order (data s)) ++
    events_of (NotifyDidChange (store_of (Flush s))) /\
  GetKeyMap (store_of (Flush s)) = (Done ∅, store_of (Flush s), []) /\
  (count s = Z.of_nat (size (data s)) mod uint64_mod ->
   Len (store_of (Flush s)) = (Done 0, store_of (Flush s), [])).
Proof.
  intros Hfree Hf Hkeys.
  assert (Hentries : forall k v, (k, v) ∈ range_order (data s) ->
            is_string k = true /\ data s !! k = Some v).
  { intros k v Hin%range_order_elem. split; [|done]. by apply (Hkeys k v). }
  rewrite (Flush_string_keys s f Hfree Hf Hkeys).
  cbn [outcome_of store_of events_of fst snd].
  repeat split.
  - unfold mbind, M_bind, bind.
    rewrite (remove_each_eq f _ s Hfree Hf (range_order_NoDup _) Hentries).
    rewrite range_order_length, delete_keys_all by apply range_order_perm.
    by rewrite NotifyDidChange_eq, lockable_updated_store.
  - by rewrite NotifyDidChange_eq, lockable_updated_store.
  - by apply GetKeyMap_empty.
  - intros Hcount. rewrite Len_eq. cbn. rewrite Hcount, dec_n_mod.
    by rewrite Z.sub_diag.
Qed.

Lemma C7_Flush_witness :
  let s := store_of ((Insert "a" (AInt 1);; Insert "b" (AInt 2)) (New true)) in
  outcome_of (Flush s) = Done tt /\
  events_of (Flush s) =
    remove_calls defaultCallback (range_order (data s)) ++
    events_of (NotifyDidChange (store_of (Flush s))) /\
  GetKeyMap (store_of (Flush s)) = (Done ∅, store_of (Flush s), []).
Proof.
  intros s.
  assert (Hkeys : string_keys s).
  { unfold string_keys. apply (bool_decide_unpack _). vm_compute. exact I. }
  destruct (C7_Flush s defaultCallback eq_refl eq_refl Hkeys)
    as (_ & H1 & _ & H2 & H3 & _).
  auto.
Defined.

(** ** Type assertions on keys *)

Lemma Remove_present_string_nil s k w :
  held s = false -> data s !! AString k = Some w -> onRemove s = None ->
  exists s1, Remove (AString k) s = (Panicked NilFunc, s1, []).
Proof.
  intros Hfree Hk Hf. open_store s; unfold_ops; cbn in Hk, Hf; rewrite Hk; cbn;
    subst; eexists; reflexivity.
Qed.

(** [GetKeyMap] on entries that are present and keyed by strings. *)
Lemma GetKeyMap_loop_strings l : forall s keys,
  (forall k v, (k, v) ∈ l -> is_string k = true /\ is_Some (data s !! k)) ->
  exists keys1, range_loop GetKeyMap_visit l keys s = (Done keys1, s, []).
Proof.
  induction l as [|[k v] l IH]; intros s keys Hl.
  - by eexists.
  - destruct (Hl k v) as [Hstr [w Hk]]; [by left|].
    destruct k as [x| |]; try discriminate.
    destruct (IH s (<[x := true]> keys)) as [keys1 Hkeys1].
    { intros k' v' Hin. apply (Hl k' v'). by right. }
    exists keys1. cbn [range_loop]. rewrite bind_get, Hk.
    by rewrite (bind_Done_nil _ _ _ _ _ (GetKeyMap_visit_string x w keys s)).
Qed.

(** [GetKeyMap] on entries that are present and are keyed by strings except
    for the key [k0]: the assertion fails at [k0]. *)
Lemma GetKeyMap_loop_panics k0 l : forall s keys,
  is_string k0 = false -> k0 ∈ l.*1 ->
  (forall k v, (k, v) ∈ l ->
     (is_string k = true \/ k = k0) /\ is_Some (data s !! k)) ->
  range_loop GetKeyMap_visit l keys s = (Panicked (TypeAssertion k0), s, []).
Proof.
  induction l as [|[k v] l IH]; intros s keys Hk0 Hin Hl.
  - by apply elem_of_nil in Hin.
  - destruct (Hl k v) as [Hstr [w Hk]]; [by left|].
    cbn [range_loop]. rewrite bind_get, Hk.
    destruct (decide (k = k0)) as [->|Hne].
    + by rewrite (bind_Panicked _ _ _ _ _ _
                    (GetKeyMap_visit_other k0 w keys s Hk0)).
    + destruct Hstr as [Hstr|]; [|done].
      destruct k as [x| |]; try discriminate.
      rewrite (bind_Done_nil _ _ _ _ _ (GetKeyMap_visit_string x w keys s)).
      apply IH; try done.
      * cbn in Hin. apply elem_of_cons in Hin as [?|?]; [by subst|done].
      * intros k' v' Hin'. apply (Hl k' v'). by right.
Qed.

(** [Flush] on such entries: the entries before [k0] are removed, then the
    assertion fails at [k0]. *)
Lemma Flush_loop_panics f k0 l : forall s,
  held s = false -> onRemove s = Some f ->
  is_string k0 = false -> k0 ∈ l.*1 -> NoDup l.*1 ->
  (forall k v, (k, v) ∈ l ->
     (is_string k = true \/ k = k0) /\ data s !! k = Some v) ->
  outcome_of (range_loop Flush_visit l tt s) = Panicked (TypeAssertion k0).
Proof.
  induction l as [|[k v] l IH]; intros s Hfree Hf Hk0 Hin Hnd Hl.
  - by apply elem_of_nil in Hin.
  - destruct (Hl k v) as [Hstr Hk]; [by left|].
    apply NoDup_cons in Hnd as [Hx Hnd].
    cbn [range_loop]. rewrite bind_get, Hk.
    destruct (decide (k = k0)) as [->|Hne].
    + by rewrite (bind_Panicked _ _ _ _ _ _ (Flush_visit_other k0 v s Hk0)).
    + destruct Hstr as [Hstr|]; [|done].
      destruct k as [x| |]; try discriminate.
      assert (Hvisit : Flush_visit (AString x) v tt s =
                (Done (tt, true),
                 updated_store ((count s - 1) mod uint64_mod)
                               (delete (AString x) (data s)) s,
                 [Call f x v])).
      { rewrite Flush_visit_string.
        by rewrite (bind_Done _ _ _ _ _ _
                      (Remove_present_string s Hfree x v f Hk Hf)). }
      rewrite (bind_Done _ _ _ _ _ _ Hvisit). cbn [outcome_of fst].
      apply IH; try done; try by destruct s.
      * cbn in Hin. apply elem_of_cons in Hin as [?|?]; [by subst|done].
      * intros k' v' Hin'. destruct (Hl k' v') as [? Hk']; [by right|].
        split; [done|]. cbn. rewrite lookup_delete_ne; [done|].
        intros <-. apply Hx. apply list_elem_of_fmap.
        by exists (AString x, v').
Qed.

(** [Flush] without a remove callback, on a store keyed by strings: no type
    assertion fails. *)
Lemma Flush_loop_nil l : forall s,
  held s = false -> onRemove s = None -> string_keys s ->
  outcome_of (range_loop Flush_visit l tt s) = Done tt \/
  outcome_of (range_loop Flush_visit l tt s) = Panicked NilFunc.
Proof.
  induction l as [|[k v] l IH]; intros s Hfree Hf Hkeys.
  - by left.
  - cbn [range_loop]. rewrite bind_get.
    destruct (data s !! k) as [w|] eqn:Hk.
    + pose proof (Hkeys k w Hk) as Hstr. destruct k as [x| |]; try discriminate.
      right.
      destruct (Remove_present_string_nil s x w Hfree Hk Hf) as [s1 Hrem].
      assert (Hvisit : Flush_visit (AString x) w tt s = (Panicked NilFunc, s1, [])).
      { rewrite Flush_visit_string. by rewrite (bind_Panicked _ _ _ _ _ _ Hrem). }
      by rewrite (bind_Panicked _ _ _ _ _ _ Hvisit).
    + by apply IH.
Qed.

(** ** The batch executor *)

Section BatchJobs.
Variable s : Store.
Variable b : batch.
Hypothesis Hfree : held s = false.

Lemma do_insert_absent k v :
  data s !! k = None ->
  do (mkJob oppInsert k v) b s =
  (Done (mkBatch (jobs b) (<[k := v]> (created b)) (updated b) (deleted b)),
   updated_store ((count s + 1) mod uint64_mod) (<[k := v]> (data s)) s, []).
Proof.
  intros Hk. unfold do. cbn [method key value].
  by rewrite (bind_Done_nil _ _ _ _ _ (insert_plain_absent_quiet s Hfree k v Hk)).
Qed.

Lemma do_insert_present k v w :
  data s !! k = Some w ->
  do (mkJob oppInsert k v) b s =
  (Done (mkBatch (jobs b) (created b) (<[k := v]> (updated b)) (deleted b)),
   set_data (<[k := v]> (data s)) s, []).
Proof.
  intros Hk. unfold do. cbn [method key value].
  by rewrite (bind_Done_nil _ _ _ _ _
                (insert_plain_present_quiet s Hfree k v w Hk)).
Qed.

Lemma do_unique_absent k v :
  data s !! k = None ->
  do (mkJob oppInsertUnique k v) b s =
  (Done (mkBatch (jobs b) (<[k := v]> (created b)) (updated b) (deleted b)),
   updated_store ((count s + 1) mod uint64_mod) (<[k := v]> (data s)) s, []).
Proof.
  intros Hk. unfold do. cbn [method key value].
  by rewrite (bind_Done_nil _ _ _ _ _
                (insert_unique_absent_quiet s Hfree k v Hk)).
Qed.

Lemma do_unique_present k v w :
  data s !! k = Some w ->
  do (mkJob oppInsertUnique k v) b s = (Done b, s, []).
Proof.
  intros Hk. unfold do. cbn [method key value].
  by rewrite (bind_Done_nil _ _ _ _ _
                (insert_unique_present s Hfree k v false w Hk)).
Qed.

Lemma do_remove_present k v w :
  data s !! k = Some w ->
  do (mkJob oppRemove k v) b s =
  (Done (mkBatch (jobs b) (created b) (updated b) (<[k := w]> (deleted b))),
   updated_store ((count s - 1) mod uint64_mod) (delete k (data s)) s, []).
Proof.
  intros Hk. unfold do. cbn [method key value].
  by rewrite (bind_Done_nil _ _ _ _ _ (remove_present_quiet s Hfree k w Hk)).
Qed.

Lemma do_remove_absent k v :
  data s !! k = None ->
  do (mkJob oppRemove k v) b s = (Done b, s, []).
Proof.
  intros Hk. unfold do. cbn [method key value].
  by rewrite (bind_Done_nil _ _ _ _ _
                (remove_absent s Hfree k (mkOptions false false) Hk)).
Qed.
End BatchJobs.

Lemma run_jobs_cons j l b s b1 s1 :
  do j b s = (Done b1, s1, []) -> run_jobs (j :: l) b s = run_jobs l b1 s1.
Proof. intros Hdo. cbn [run_jobs]. by apply bind_Done_nil. Qed.

Lemma call_batch_eq slot kv s :
  ((if bool_decide (0 < KV_Len kv) && negb (is_nil slot)
    then call_batch slot kv else ret tt) : M unit) s =
  (Done tt, s, batch_call slot kv).
Proof.
  unfold batch_call, KV_Len.
  destruct slot as [f|]; cbn; [|by rewrite andb_false_r].
  rewrite andb_true_r. destruct (decide (kv = ∅)) as [->|Hne].
  - by rewrite map_size_empty.
  - rewrite bool_decide_eq_true_2; [done|].
    apply map_size_non_empty_iff in Hne. lia.
Qed.

(** [Execute] once its jobs have run: the three batch callbacks, in the
    order insert, update, remove, each for a non-empty result set. *)
Lemma Execute_eq `{Scheduler} b s b1 s1 :
  run_jobs (schedule (jobs b)) b s = (Done b1, s1, []) ->
  Execute b s =
  (Done b1, s1,
   batch_call (onBatchInsert s1) (created b1) ++
   batch_call (onBatchUpdate s1) (updated b1) ++
   batch_call (onBatchRemove s1) (deleted b1)).
Proof.
  intros Hrun. unfold Execute.
  rewrite (bind_Done_nil _ _ _ _ _ Hrun), bind_get.
  rewrite (bind_Done _ _ _ _ _ _ (call_batch_eq _ _ s1)).
  rewrite (bind_Done _ _ _ _ _ _ (call_batch_eq _ _ s1)).
  rewrite (bind_Done _ _ _ _ _ _ (call_batch_eq _ _ s1)).
  cbn. by rewrite app_nil_r.
Qed.

Lemma schedule_singleton `{Scheduler} j : schedule [j] = [j].
Proof. apply Permutation_singleton_r. apply schedule_perm. Qed.

(** A batch with one [Insert] job on an absent key. *)
Lemma Execute_insert_absent `{Scheduler} s k v :
  held s = false -> data s !! k = None ->
  store_of (Execute (batch_Insert k v Batch) s) =
  updated_store ((count s + 1) mod uint64_mod) (<[k := v]> (data s)) s.
Proof.
  intros Hfree Hk.
  erewrite Execute_eq; [reflexivity|].
  cbn [jobs batch_Insert Batch app]. rewrite schedule_singleton.
  erewrite run_jobs_cons by by apply do_insert_absent.
  reflexivity.
Qed.

Lemma Flush_outcome `{RangeOrder} s :
  outcome_of (Flush s) =
  match outcome_of (range_loop Flush_visit (range_order (data s)) tt s) with
  | Done _ => Done tt
  | Panicked p => Panicked p
  | Deadlocked => Deadlocked
  end.
Proof.
  unfold Flush, Range.
  change (s0 ← get; if lockable s0 then emit Broadcast else ret tt)
    with NotifyDidChange.
  unfold mbind at 1, M_bind at 1, bind at 1. rewrite bind_get.
  destruct (range_loop Flush_visit (range_order (data s)) () s)
    as [[[[]|p|] s1] e1]; try reflexivity.
  by rewrite NotifyDidChange_eq.
Qed.

Lemma string_keys_absent s k :
  string_keys s -> is_string k = false -> data s !! k = None.
Proof.
  intros Hkeys Hk. destruct (data s !! k) as [w|] eqn:Hw; [|done].
  specialize (Hkeys k w Hw). cbn in Hkeys. congruence.
Qed.

(** C10.  On a store whose keys are all strings no [key.(string)]
    assertion fails: [GetKeyMap] returns, and neither [Flush] nor [Remove]
    panics on a type assertion.  After a batch has inserted a key that is
    not a string into such a store, [GetKeyMap] panics on the assertion for
    that key, and so does [Flush] (when a remove callback is set, so that
    the removals before that key go through). *)
Theorem C10_key_type_assertions :
  (forall (R : RangeOrder) s, held s = false -> string_keys s ->
     (exists keys, GetKeyMap s = (Done keys, s, [])) /\
     (forall k, outcome_of (Flush s) <> Panicked (TypeAssertion k)) /\
     (forall key k, outcome_of (Remove key s) <> Panicked (TypeAssertion k))) /\
  (forall (R : RangeOrder) (Sch : Scheduler) s k v,
     held s = false -> string_keys s -> is_string k = false ->
     outcome_of (GetKeyMap (store_of (Execute (batch_Insert k v Batch) s))) =
       Panicked (TypeAssertion k) /\
     (is_nil (onRemove s) = false ->
      outcome_of (Flush (store_of (Execute (batch_Insert k v Batch) s))) =
        Panicked (TypeAssertion k))).
Proof.
  split.
  - intros R s Hfree Hkeys. repeat split.
    + unfold GetKeyMap, Range. rewrite bind_get.
      apply GetKeyMap_loop_strings. intros k v Hin%range_order_elem.
      split; [by apply (Hkeys k v)|by eexists].
    + intros k. destruct (onRemove s) as [f|] eqn:Hf.
      * by rewrite (Flush_string_keys s f Hfree Hf Hkeys).
      * rewrite Flush_outcome.
        by destruct (Flush_loop_nil (range_order (data s)) s Hfree Hf Hkeys)
          as [-> | ->].
    + intros key k. destruct (data s !! key) as [w|] eqn:Hk.
      * pose proof (Hkeys key w Hk) as Hstr.
        destruct key as [x| |]; try discriminate.
        destruct (onRemove s) as [f|] eqn:Hf.
        -- by rewrite (Remove_present_string s Hfree x w f Hk Hf).
        -- by destruct (Remove_present_string_nil s x w Hfree Hk Hf) as [s1 ->].
      * by rewrite (Remove_absent s Hfree key Hk).
  - intros R Sch s k v Hfree Hkeys Hk.
    pose proof (string_keys_absent s k Hkeys Hk) as Habs.
    rewrite (Execute_insert_absent s k v Hfree Habs).
    set (s1 := updated_store _ _ s).
    assert (Hin : k ∈ (range_order (data s1)).*1).
    { apply list_elem_of_fmap. exists (k, v). split; [done|].
      apply range_order_elem. apply lookup_insert_eq. }
    assert (Hentries : forall k' v', (k', v') ∈ range_order (data s1) ->
              (is_string k' = true \/ k' = k) /\ data s1 !! k' = Some v').
    { intros k' v' Hin'%range_order_elem. split; [|done].
      destruct (decide (k' = k)) as [|Hne]; [by right|left].
      cbn in Hin'. rewrite lookup_insert_ne in Hin' by done.
      by apply (Hkeys k' v'). }
    split.
    + unfold GetKeyMap, Range. rewrite bind_get.
      rewrite (GetKeyMap_loop_panics k); try done.
      intros k' v' Hin'. destruct (Hentries k' v' Hin') as [? ?].
      split; [done|by eexists].
    + intros [f Hf]%is_nil_false. rewrite Flush_outcome.
      rewrite (Flush_loop_panics f k); try done.
      apply range_order_NoDup.
Qed.

Lemma C10_key_type_assertions_witness :
  let s := store_of (Insert "a" (AInt 1) (New true)) in
  ((exists keys, GetKeyMap s = (Done keys, s, [])) /\
   (forall k, outcome_of (Flush s) <> Panicked (TypeAssertion k)) /\
   (forall key k, outcome_of (Remove key s) <> Panicked (TypeAssertion k))) /\
  (outcome_of (GetKeyMap (store_of (Execute
     (batch_Insert (AInt 42) (AString "x") Batch) s))) =
     Panicked (TypeAssertion (AInt 42)) /\
   (is_nil (onRemove s) = false ->
    outcome_of (Flush (store_of (Execute
      (batch_Insert (AInt 42) (AString "x") Batch) s))) =
      Panicked (TypeAssertion (AInt 42)))).
Proof.
  intros s.
  assert (Hkeys : string_keys s).
  { unfold string_keys. apply (bool_decide_unpack _). vm_compute. exact I. }
  split.
  - apply (proj1 C10_key_type_assertions canonical_order s eq_refl Hkeys).
  - apply (proj2 C10_key_type_assertions canonical_order queue_order s
             (AInt 42) (AString "x") eq_refl Hkeys eq_refl).
Defined.

(** Jobs that change nothing leave the store and the batch as they are. *)
Lemma run_jobs_noop l : forall b s,
  held s = false -> Forall (noop_job s) l ->
  run_jobs l b s = (Done b, s, []).
Proof.
  induction l as [|[m k v] l IH]; intros b s Hfree Hl; [done|].
  apply Forall_cons in Hl as [Hj Hl].
  rewrite (run_jobs_cons _ _ _ _ b s); [by apply IH|].
  destruct m; cbn in Hj.
  - done.
  - destruct Hj as [w Hw]. by apply (do_unique_present s b Hfree k v w).
  - by apply do_remove_absent.
Qed.

Lemma batch_call_empty slot : batch_call slot ∅ = [].
Proof. unfold batch_call. destruct slot; [|done]. by rewrite decide_True. Qed.

Lemma batch_call_insert f k v (m : KV) :
  batch_call (Some f) (<[k := v]> m) = [CallBatch f (<[k := v]> m)].
Proof.
  unfold batch_call. rewrite decide_False; [done|]. apply insert_non_empty.
Qed.

Lemma schedule_three `{Scheduler} (x y z : job) :
  schedule [x; y; z] ∈ permutations [x; y; z].
Proof. apply permutations_Permutation. symmetry. apply schedule_perm. Qed.

Ltac step_job :=
  erewrite run_jobs_cons;
  [| first [ eapply do_unique_absent | eapply do_unique_present
           | eapply do_insert_present | eapply do_insert_absent
           | eapply do_remove_absent | eapply do_remove_present ];
     cbn; rewrite ?lookup_insert_ne by done; eassumption ].

(** C3.  On a store where ["b"] holds 0 and ["a"] and ["c"] are absent,
    the batch [InsertUnique("a",1)], [Insert("b",2)], [Remove("c")] calls,
    under every schedule of its jobs, the batch-insert callback once with
    [{"a":1}], then the batch-update callback once with [{"b":2}], and
    nothing else.  A batch whose jobs all change nothing (insert-unique on
    present keys, remove on absent keys) calls no callback and leaves the
    store as it was. *)
Theorem C3_batch_callbacks :
  (forall (Sch : Scheduler) s fi fu,
     held s = false ->
     data s !! AString "a" = None ->
     data s !! AString "b" = Some (AInt 0) ->
     data s !! AString "c" = None ->
     onBatchInsert s = Some fi -> onBatchUpdate s = Some fu ->
     let b := batch_Remove (AString "c")
                (batch_Insert (AString "b") (AInt 2)
                   (batch_InsertUnique (AString "a") (AInt 1) Batch)) in
     outcome_of (Execute b s) =
       Done (mkBatch (jobs b) {[AString "a" := AInt 1]}
                     {[AString "b" := AInt 2]} ∅) /\
     events_of (Execute b s) =
       [CallBatch fi {[AString "a" := AInt 1]};
        CallBatch fu {[AString "b" := AInt 2]}]) /\
  (forall (Sch : Scheduler) s js,
     held s = false -> Forall (noop_job s) js ->
     Execute (mkBatch js ∅ ∅ ∅) s = (Done (mkBatch js ∅ ∅ ∅), s, [])).
Proof.
  split.
  - intros Sch s fi fu Hfree Ha Hb Hc Hfi Hfu b.
    assert (Hrun : exists s1,
      run_jobs (schedule (jobs b)) b s =
        (Done (mkBatch (jobs b) {[AString "a" := AInt 1]}
                       {[AString "b" := AInt 2]} ∅), s1, []) /\
      onBatchInsert s1 = Some fi /\ onBatchUpdate s1 = Some fu).
    { pose proof (schedule_three (mkJob oppInsertUnique (AString "a") (AInt 1))
                    (mkJob oppInsert (AString "b") (AInt 2))
                    (mkJob oppRemove (AString "c") ANil)) as Hperm.
      change (jobs b) with [mkJob oppInsertUnique (AString "a") (AInt 1);
                            mkJob oppInsert (AString "b") (AInt 2);
                            mkJob oppRemove (AString "c") ANil].
      cbn in Hperm.
      repeat (apply elem_of_cons in Hperm as [->|Hperm]);
        [..|by apply elem_of_nil in Hperm];
        eexists; (split; [do 3 step_job; reflexivity|]); by destruct s. }
    destruct Hrun as (s1 & Hrun & Hfi1 & Hfu1).
    rewrite (Execute_eq b s _ s1 Hrun). cbn [outcome_of events_of fst snd].
    split; [done|]. cbn [created updated deleted].
    rewrite Hfi1, Hfu1, batch_call_empty, app_nil_r.
    reflexivity.
  - intros Sch s js Hfree Hjs.
    assert (Hrun : run_jobs (schedule js) (mkBatch js ∅ ∅ ∅) s =
                   (Done (mkBatch js ∅ ∅ ∅), s, [])).
    { apply run_jobs_noop; [done|]. by rewrite schedule_perm. }
    rewrite (Execute_eq (mkBatch js ∅ ∅ ∅) s _ s Hrun).
    cbn [created updated deleted]. by rewrite !batch_call_empty.
Qed.

Lemma C3_batch_callbacks_witness :
  let s := store_of (Insert "b" (AInt 0) (New true)) in
  let b := batch_Remove (AString "c")
             (batch_Insert (AString "b") (AInt 2)
                (batch_InsertUnique (AString "a") (AInt 1) Batch)) in
  events_of (Execute b s) =
    [CallBatch defaultBatchCallback {[AString "a" := AInt 1]};
     CallBatch defaultBatchCallback {[AString "b" := AInt 2]}] /\
  Execute (mkBatch [mkJob oppInsertUnique (AString "b") (AInt 5);
                    mkJob oppRemove (AString "c") ANil] ∅ ∅ ∅) s =
  (Done (mkBatch [mkJob oppInsertUnique (AString "b") (AInt 5);
                  mkJob oppRemove (AString "c") ANil] ∅ ∅ ∅), s, []).
Proof.
  intros s b. split.
  - apply (proj1 C3_batch_callbacks queue_order s
             defaultBatchCallback defaultBatchCallback);
      reflexivity.
  - apply (proj2 C3_batch_callbacks queue_order s); [reflexivity|].
    repeat constructor. cbn. by eexists.
Defined.

(** ** Classification of the jobs of a batch *)




Lemma schedule_two `{Scheduler} (x y : job) :
  schedule [x; y] ∈ permutations [x; y].
Proof. apply permutations_Permutation. symmetry. apply schedule_perm. Qed.

(** Two [Insert] jobs on the same key put the key in the created set and in
    the updated set, under every schedule. *)
Lemma same_key_created_and_updated :
  forall Sch : Scheduler,
  exists b1,
    outcome_of (Execute (batch_Insert (AString "k") (AInt 2)
                           (batch_Insert (AString "k") (AInt 1) Batch))
                        (New true)) = Done b1 /\
    is_Some (created b1 !! AString "k") /\
    is_Some (updated b1 !! AString "k").
Proof.
  intros Sch.
  set (b := batch_Insert (AString "k") (AInt 2)
              (batch_Insert (AString "k") (AInt 1) Batch)).
  assert (Hrun : exists b1 s1,
    run_jobs (schedule (jobs b)) b (New true) = (Done b1, s1, []) /\
    is_Some (created b1 !! AString "k") /\
    is_Some (updated b1 !! AString "k")).
  { pose proof (schedule_two (mkJob oppInsert (AString "k") (AInt 1))
                  (mkJob oppInsert (AString "k") (AInt 2))) as Hperm.
    change (jobs b) with [mkJob oppInsert (AString "k") (AInt 1);
                          mkJob oppInsert (AString "k") (AInt 2)].
    cbn in Hperm.
    repeat (apply elem_of_cons in Hperm as [->|Hperm]);
      [..|by apply elem_of_nil in Hperm];
      eexists _, _; (split; [vm_compute; reflexivity|]);
      split; by eexists. }
  destruct Hrun as (b1 & s1 & Hrun & Hc & Hu).
  exists b1. by rewrite (Execute_eq b (New true) b1 s1 Hrun).
Qed.




(** ** WaitForDataChange *)

Import Wait.

(** The helper takes the mutex, broadcasts and exits before the caller has
    reached [s.cond.Wait()]. *)
Definition helper_first : list action :=
  [ACaller; ASelectDone; AHelper; AHelper; AHelper; ACaller; ACaller].

(** The caller reaches [s.cond.Wait()] before the helper broadcasts. *)
Definition caller_first : list action :=
  [ACaller; ACaller; ACaller; ASelectDone; AHelper; AHelper; AHelper;
   ACaller; ACaller; ACaller].

Example caller_first_returns :
  caller <$> run caller_first (init true true) = Some CallerReturned.
Proof. reflexivity. Qed.

Example not_lockable_returns :
  caller <$> run [ACaller] (init false false) = Some CallerReturned.
Proof. reflexivity. Qed.

(** Once the caller is suspended and the helper has exited, only
    [NotifyDidChange] moves the caller. *)
Lemma waiting_forever acts : forall st st1,
  caller st = CallerWaiting -> helper st = HelperExited ->
  ANotify ∉ acts -> run acts st = Some st1 ->
  caller st1 = CallerWaiting.
Proof.
  induction acts as [|a acts IH]; intros st st1 Hc Hh Hn Hrun.
  - cbn in Hrun. by injection Hrun as <-.
  - apply not_elem_of_cons in Hn as [Ha Hn].
    cbn [run] in Hrun.
    destruct a; try done; cbn in Hrun;
      unfold caller_step, helper_step in Hrun; rewrite ?Hc, ?Hh in Hrun;
      try discriminate.
    by apply (IH (set_done true st)).
Qed.

(** The caller returns only after a wake-up: on a lockable store, only after
    the context was cancelled or [NotifyDidChange] was called. *)
Definition woken (st : state) : bool :=
  match caller st with
  | CallerWoken | CallerSend | CallerUnlock | CallerReturned => true
  | _ => false
  end.

Definition helper_saw_done (st : state) : bool :=
  match helper st with
  | HelperLock | HelperBroadcast | HelperUnlock => true
  | _ => false
  end.

Definition wake_justified (notified : bool) (st : state) : Prop :=
  is_lockable st = true ->
  (woken st = true -> ctx_done st = true \/ notified = true) /\
  (helper_saw_done st = true -> ctx_done st = true).

Lemma wake_justified_next a st st1 notified :
  wake_justified notified st -> next a st = Some st1 ->
  wake_justified (notified || bool_decide (a = ANotify)) st1 /\
  is_lockable st1 = is_lockable st.
Proof.
  intros Hinv Hnext. unfold wake_justified in *.
  destruct st as [l c h m d w].
  destruct a, l, c, h, m, d, w, notified; cbn in *;
    try discriminate; injection Hnext as <-; cbn;
    (split; [|reflexivity]); intros Hl; try discriminate Hl;
    destruct (Hinv eq_refl) as [H1 H2];
    (split; intros Hw; try discriminate Hw; auto).
Qed.

Lemma wake_justified_run acts : forall st st1 notified,
  wake_justified notified st -> run acts st = Some st1 ->
  wake_justified (notified || bool_decide (ANotify ∈ acts)) st1 /\
  is_lockable st1 = is_lockable st.
Proof.
  induction acts as [|a acts IH]; intros st st1 notified Hinv Hrun.
  - cbn in Hrun. injection Hrun as <-. split; [|done].
    rewrite bool_decide_eq_false_2 by apply not_elem_of_nil.
    by rewrite orb_false_r.
  - cbn [run] in Hrun. destruct (next a st) as [st2|] eqn:Hnext; [|done].
    destruct (wake_justified_next a st st2 notified Hinv Hnext) as [Hinv2 Hl2].
    destruct (IH st2 st1 _ Hinv2 Hrun) as [Hinv1 Hl1].
    split; [|congruence].
    replace (notified || bool_decide (ANotify ∈ a :: acts))
      with (notified || bool_decide (a = ANotify) || bool_decide (ANotify ∈ acts));
      [done|].
    rewrite <- orb_assoc. f_equal.
    destruct (decide (a = ANotify)) as [->|Hne].
    + rewrite (bool_decide_eq_true_2 (ANotify = ANotify)) by done.
      rewrite (bool_decide_eq_true_2 (ANotify ∈ ANotify :: acts)); [done|].
      by left.
    + rewrite (bool_decide_eq_false_2 (a = ANotify)) by done. cbn.
      apply bool_decide_ext. rewrite elem_of_cons. naive_solver.
Qed.

(** On a lockable store the caller returns only after the context was
    cancelled or [NotifyDidChange] was called. *)
Lemma returns_only_after_wakeup acts cancelled st :
  run acts (init true cancelled) = Some st -> caller st = CallerReturned ->
  ctx_done st = true \/ ANotify ∈ acts.
Proof.
  intros Hrun Hret.
  destruct (wake_justified_run acts (init true cancelled) st false)
    as [Hinv Hl]; [by intros _; split; intros; discriminate|done|].
  destruct (Hinv Hl) as [Hw _]. unfold woken in Hw. rewrite Hret in Hw.
  destruct (Hw eq_refl) as [?|Hn]; [by left|right].
  cbn in Hn. by apply bool_decide_eq_true in Hn.
Qed.

(** C9.  With a context that is already cancelled, [WaitForDataChange] on a
    lockable store need not return: when the helper goroutine locks,
    broadcasts and unlocks before the caller has reached [s.cond.Wait()],
    the broadcast wakes nobody, and the caller then suspends in [Wait] and
    stays there under every continuation in which nobody calls
    [NotifyDidChange]. *)
Theorem C9_lost_wakeup :
  exists st,
    run helper_first (init true true) = Some st /\
    caller st = CallerWaiting /\ helper st = HelperExited /\
    forall acts st1,
      ANotify ∉ acts -> run acts st = Some st1 -> caller st1 = CallerWaiting.
Proof.
  exists (mkState true CallerWaiting HelperExited Free true false).
  split; [reflexivity|]. split; [reflexivity|]. split; [reflexivity|].
  intros acts st1 Hn Hrun.
  by apply (waiting_forever acts
              (mkState true CallerWaiting HelperExited Free true false) st1).
Qed.

(** * Further properties of the store *)

(** ** Mutations and their callbacks *)

(** X1.  What [insert] does to the store depends neither on [runCallbacks]
    nor on how the callback call ends: an absent key is stored and counted,
    a present key is overwritten unless the insert is unique, and nothing
    else of the store changes; in particular the mutex is released again,
    also when the call panics. *)
Theorem X1_insert_store_effect s (key val : any) (o : options) :
  held s = false ->
  store_of (insert key val o s) =
  match data s !! key with
  | None => updated_store ((count s + 1) mod uint64_mod)
                          (<[key := val]> (data s)) s
  | Some _ => if unique o then s else set_data (<[key := val]> (data s)) s
  end.
Proof.
  intros Hfree. destruct o as [[|] [|]];
  destruct (data s !! key) as [w|] eqn:Hk;
    open_store s; unfold_ops; cbn in Hk; rewrite Hk; cbn; try reflexivity;
    destruct onInsert0, onUpdate0, key; reflexivity.
Qed.

Lemma X1_insert_store_effect_witness :
  store_of (insert (AInt 7) (AString "v") (mkOptions false true) (New true)) =
  updated_store 1 {[AInt 7 := AString "v"]} (New true).
Proof.
  apply (X1_insert_store_effect (New true) (AInt 7) (AString "v")
           (mkOptions false true)).
  reflexivity.
Defined.

(** X2.  [remove] always deletes: after the call the key is absent and, if
    it was present, the counter is decremented, whatever [runCallbacks] is
    and also when the callback call panics; nothing else of the store
    changes. *)
Theorem X2_remove_store_effect s (key : any) (o : options) :
  held s = false ->
  store_of (remove key o s) =
  match data s !! key with
  | None => s
  | Some _ => updated_store ((count s - 1) mod uint64_mod)
                            (delete key (data s)) s
  end.
Proof.
  intros Hfree. destruct o as [u [|]];
  destruct (data s !! key) as [w|] eqn:Hk;
    open_store s; unfold_ops; cbn in Hk; rewrite Hk; cbn; try reflexivity;
    destruct onRemove0, key; reflexivity.
Qed.

Lemma X2_remove_store_effect_witness :
  let s := store_of (Execute (batch_Insert (AInt 42) (AString "x") Batch)
                             (New true)) in
  store_of (remove (AInt 42) (mkOptions false true) s) =
  updated_store ((count s - 1) mod uint64_mod) (delete (AInt 42) (data s)) s.
Proof.
  intros s.
  apply (X2_remove_store_effect s (AInt 42) (mkOptions false true)).
  reflexivity.
Defined.

(** X3.  With the insert callback set to nil, [InsertUnique] of an absent
    key returns normally without calling anything, while [Insert] of the
    same key panics on the nil function value; both leave the key stored
    and counted. *)
Theorem X3_nil_insert_callback s (k : string) (v : any) :
  held s = false -> data s !! AString k = None -> onInsert s = None ->
  InsertUnique k v s =
    (Done (v, false),
     updated_store ((count s + 1) mod uint64_mod)
                   (<[AString k := v]> (data s)) s, []) /\
  Insert k v s =
    (Panicked NilFunc,
     updated_store ((count s + 1) mod uint64_mod)
                   (<[AString k := v]> (data s)) s, []).
Proof.
  intros Hfree Hk Hf. split.
  - rewrite (InsertUnique_absent s Hfree k v Hk). by rewrite Hf.
  - open_store s; unfold_ops; cbn in Hk, Hf; rewrite Hk; cbn; subst;
      reflexivity.
Qed.

Lemma X3_nil_insert_callback_witness :
  let s := store_of (OnInsertHandler None (New true)) in
  InsertUnique "k" (AInt 1) s =
    (Done (AInt 1, false),
     updated_store ((count s + 1) mod uint64_mod)
                   (<[AString "k" := AInt 1]> (data s)) s, []) /\
  Insert "k" (AInt 1) s =
    (Panicked NilFunc,
     updated_store ((count s + 1) mod uint64_mod)
                   (<[AString "k" := AInt 1]> (data s)) s, []).
Proof.
  intros s. apply (X3_nil_insert_callback s "k" (AInt 1)); reflexivity.
Defined.

Lemma Insert_Done s k v :
  held s = false -> is_nil (onInsert s) = false -> is_nil (onUpdate s) = false ->
  exists e, Insert k v s =
    (Done (v, bool_decide (is_Some (data s !! AString k))),
     store_of (Insert k v s), e) /\
    data (store_of (Insert k v s)) = <[AString k := v]> (data s).
Proof.
  intros Hfree [fi Hi]%is_nil_false [fu Hu]%is_nil_false.
  destruct (data s !! AString k) as [w|] eqn:Hk.
  - rewrite (Insert_present s Hfree k v w fu Hk Hu).
    rewrite bool_decide_eq_true_2 by by eexists. by eexists.
  - rewrite (Insert_absent s Hfree k v fi Hk Hi).
    rewrite bool_decide_eq_false_2 by by intros [? ?]. by eexists.
Qed.

(** X4.  Insert then look up: with the insert and update callbacks set,
    [Get] after [Insert(k, v)] returns [(v, true)] for [k] and, for every
    other key, what [Get] returned before the insert. *)
Theorem X4_Insert_then_Get s (k : string) (v key : any) :
  held s = false -> is_nil (onInsert s) = false -> is_nil (onUpdate s) = false ->
  outcome_of ((Insert k v;; Get key) s) =
  if decide (key = AString k) then Done (v, true) else outcome_of (Get key s).
Proof.
  intros Hfree Hi Hu.
  destruct (Insert_Done s k v Hfree Hi Hu) as (e & Hins & Hdata).
  rewrite (bind_Done _ _ _ _ _ _ Hins). cbn [outcome_of fst].
  rewrite !Get_eq. cbn [fst]. rewrite Hdata.
  case_decide as Hkey.
  - subst key. by rewrite lookup_insert_eq.
  - by rewrite lookup_insert_ne.
Qed.

Lemma X4_Insert_then_Get_witness :
  outcome_of ((Insert "a" (AInt 1);; Get (AString "a")) (New false)) =
  Done (AInt 1, true).
Proof.
  apply (X4_Insert_then_Get (New false) "a" (AInt 1) (AString "a"));
    reflexivity.
Defined.

(** X5.  Remove then look up: on a store keyed by strings with a remove
    callback, [Remove(k)] returns whether [k] was present, [Get] afterwards
    finds [k] absent and every other key as before, and a second
    [Remove(k)] returns [false] and calls nothing. *)
Theorem X5_Remove_then_Get s (k key : any) :
  held s = false -> string_keys s -> is_nil (onRemove s) = false ->
  outcome_of (Remove k s) = Done (bool_decide (is_Some (data s !! k))) /\
  outcome_of ((Remove k;; Get key) s) =
    (if decide (key = k) then Done (ANil, false) else outcome_of (Get key s)) /\
  Remove k (store_of (Remove k s)) = (Done false, store_of (Remove k s), []).
Proof.
  intros Hfree Hkeys [f Hf]%is_nil_false.
  destruct (data s !! k) as [w|] eqn:Hk.
  - pose proof (Hkeys k w Hk) as Hstr. destruct k as [x| |]; try discriminate.
    pose proof (Remove_present_string s Hfree x w f Hk Hf) as Hrem.
    rewrite (bind_Done _ _ _ _ _ _ Hrem), Hrem.
    cbn [outcome_of store_of fst snd].
    rewrite bool_decide_eq_true_2 by by eexists.
    split; [done|]. split.
    + rewrite !Get_eq. cbn. case_decide as Hkey.
      * subst key. by rewrite lookup_delete_eq.
      * by rewrite lookup_delete_ne.
    + apply Remove_absent; [by destruct s|]. cbn. apply lookup_delete_eq.
  - pose proof (Remove_absent s Hfree k Hk) as Hrem.
    rewrite (bind_Done _ _ _ _ _ _ Hrem), Hrem.
    cbn [outcome_of store_of fst snd].
    rewrite bool_decide_eq_false_2 by by intros [? ?].
    split; [done|]. split; [|by apply Remove_absent].
    rewrite !Get_eq. cbn. case_decide as Hkey; [|done].
    subst key. by rewrite Hk.
Qed.

Lemma X5_Remove_then_Get_witness :
  let s := store_of (Insert "a" (AInt 1) (New true)) in
  outcome_of (Remove (AString "a") s) = Done true /\
  outcome_of ((Remove (AString "a");; Get (AString "a")) s) =
    Done (ANil, false) /\
  Remove (AString "a") (store_of (Remove (AString "a") s)) =
    (Done false, store_of (Remove (AString "a") s), []).
Proof.
  intros s.
  assert (Hkeys : string_keys s).
  { unfold string_keys. apply (bool_decide_unpack _). vm_compute. exact I. }
  apply (X5_Remove_then_Get s (AString "a") (AString "a") eq_refl Hkeys eq_refl).
Defined.

(** ** Calls made while the mutex is held *)

Lemma bind_Deadlocked {A B} (m : M A) (f : A -> M B) s s1 e1 :
  m s = (Deadlocked, s1, e1) -> (m ≫= f) s = (Deadlocked, s1, e1).
Proof. intros Hm. unfold mbind, M_bind, bind. by rewrite Hm. Qed.

Lemma locked_held {A} (body : M A) s :
  cond s = Some true -> locked body s = (Deadlocked, s, []).
Proof. intros Hc. unfold locked. by rewrite Hc. Qed.

Lemma GetKeyMap_loop_never_deadlocks l : forall s keys,
  outcome_of (range_loop GetKeyMap_visit l keys s) <> Deadlocked.
Proof.
  induction l as [|[k v] l IH]; intros s keys; [done|].
  cbn [range_loop]. rewrite bind_get.
  destruct (data s !! k) as [w|]; [|apply IH].
  destruct k as [x| |].
  - rewrite (bind_Done_nil _ _ _ _ _ (GetKeyMap_visit_string x w keys s)).
    apply IH.
  - by rewrite (bind_Panicked _ _ _ _ _ _
                  (GetKeyMap_visit_other (AInt n) w keys s eq_refl)).
  - by rewrite (bind_Panicked _ _ _ _ _ _
                  (GetKeyMap_visit_other ANil w keys s eq_refl)).
Qed.

(** X6.  A call made while the mutex of a lockable store is held, as a
    callback of that store would make it, deadlocks in every mutating entry
    point and changes nothing: [insert], [remove], [Flush] on a store that
    has keys, all strings, and [Execute] on a batch that has jobs.  The
    reads [Get], [Len] and [GetKeyMap] take no lock and never deadlock. *)
Theorem X6_call_with_mutex_held s :
  cond s = Some true ->
  (forall key val o, insert key val o s = (Deadlocked, s, [])) /\
  (forall key o, remove key o s = (Deadlocked, s, [])) /\
  (forall R : RangeOrder, string_keys s -> data s <> ∅ ->
     Flush s = (Deadlocked, s, [])) /\
  (forall (Sch : Scheduler) b, jobs b <> [] ->
     Execute b s = (Deadlocked, s, [])) /\
  (forall key, outcome_of (Get key s) <> Deadlocked) /\
  outcome_of (Len s) <> Deadlocked /\
  (forall R : RangeOrder, outcome_of (GetKeyMap s) <> Deadlocked).
Proof.
  intros Hc.
  assert (Hins : forall key val o, insert key val o s = (Deadlocked, s, []))
    by (intros; by apply locked_held).
  assert (Hrem : forall key o, remove key o s = (Deadlocked, s, []))
    by (intros; by apply locked_held).
  repeat split; try done.
  - intros R Hkeys Hne. unfold Flush, Range.
    apply bind_Deadlocked. rewrite bind_get.
    destruct (range_order (data s)) as [|[k v] l] eqn:Hl.
    { exfalso. apply Hne. apply map_to_list_empty_iff.
      apply Permutation_nil_r. by rewrite <- range_order_perm, Hl. }
    assert (Hk : data s !! k = Some v).
    { apply range_order_elem. rewrite Hl. by left. }
    pose proof (Hkeys k v Hk) as Hstr. destruct k as [x| |]; try discriminate.
    cbn [range_loop]. rewrite bind_get, Hk.
    apply bind_Deadlocked. rewrite Flush_visit_string.
    apply bind_Deadlocked. unfold Remove. apply bind_Deadlocked. apply Hrem.
  - intros Sch b Hjobs. unfold Execute. apply bind_Deadlocked.
    destruct (schedule (jobs b)) as [|j l] eqn:Hl.
    { exfalso. apply Hjobs. apply Permutation_nil_r.
      by rewrite <- (schedule_perm (jobs b)), Hl. }
    cbn [run_jobs]. apply bind_Deadlocked.
    unfold do. destruct (method j); by apply bind_Deadlocked.
  - intros key. rewrite Get_eq. by destruct (data s !! key).
  - intros R. unfold GetKeyMap, Range. rewrite bind_get.
    apply GetKeyMap_loop_never_deadlocks.
Qed.

Lemma X6_call_with_mutex_held_witness :
  let s := set_cond (Some true) (store_of (Insert "a" (AInt 1) (New true))) in
  (forall key val o, insert key val o s = (Deadlocked, s, [])) /\
  (forall key o, remove key o s = (Deadlocked, s, [])).
Proof.
  intros s. destruct (X6_call_with_mutex_held s eq_refl) as (H1 & H2 & _).
  by split.
Defined.

(** ** The key map *)

Lemma GetKeyMap_loop_exact l : forall s (keys : gmap string bool),
  (forall k v, (k, v) ∈ l -> is_string k = true /\ is_Some (data s !! k)) ->
  exists keys1 : gmap string bool,
    range_loop GetKeyMap_visit l keys s = (Done keys1, s, []) /\
    forall x, keys1 !! x =
              if decide (AString x ∈ l.*1) then Some true else keys !! x.
Proof.
  induction l as [|[k v] l IH]; intros s keys Hl.
  - exists keys. split; [done|]. intros x.
    rewrite decide_False; [done|]. apply not_elem_of_nil.
  - destruct (Hl k v) as [Hstr [w Hk]]; [by left|].
    destruct k as [x0| |]; try discriminate.
    destruct (IH s (<[x0 := true]> keys)) as (keys1 & Hloop & Hkeys1).
    { intros k' v' Hin. apply (Hl k' v'). by right. }
    exists keys1. split.
    + cbn [range_loop]. rewrite bind_get, Hk.
      by rewrite (bind_Done_nil _ _ _ _ _ (GetKeyMap_visit_string x0 w keys s)).
    + intros x. rewrite Hkeys1. cbn [fmap list_fmap fst].
      destruct (decide (x = x0)) as [->|Hne].
      * rewrite lookup_insert_eq.
        rewrite (decide_True (P := AString x0 ∈ AString x0 :: _));
          [|by left].
        by case_decide.
      * rewrite lookup_insert_ne by done.
        destruct (decide (AString x ∈ l.*1)) as [Hin|Hin].
        -- rewrite decide_True; [done|by right].
        -- rewrite decide_False; [done|].
           intros [Heq|?]%elem_of_cons; [congruence|done].
Qed.

(** X7.  On a store keyed by strings, [GetKeyMap] returns the map that
    holds [true] at exactly the keys of the store; it leaves the store as it
    is and calls nothing, whatever the order in which [Range] visits the
    entries. *)
Theorem X7_GetKeyMap_is_key_set `{RangeOrder} s :
  string_keys s ->
  exists keys : gmap string bool,
    GetKeyMap s = (Done keys, s, []) /\
    forall x, keys !! x = (fun _ => true) <$> (data s !! AString x).
Proof.
  intros Hkeys.
  destruct (GetKeyMap_loop_exact (range_order (data s)) s ∅)
    as (keys & Hloop & Hlookup).
  { intros k v Hin%range_order_elem. split; [by apply (Hkeys k v)|by eexists]. }
  exists keys. split.
  - unfold GetKeyMap, Range. by rewrite bind_get.
  - intros x. rewrite Hlookup, lookup_empty.
    destruct (data s !! AString x) as [v|] eqn:Hx; cbn.
    + rewrite decide_True; [done|]. apply list_elem_of_fmap.
      exists (AString x, v). split; [done|]. by apply range_order_elem.
    + rewrite decide_False; [done|].
      intros [[k v] [Hk Hin%range_order_elem]]%list_elem_of_fmap.
      cbn in Hk. subst k. congruence.
Qed.

Lemma X7_GetKeyMap_is_key_set_witness :
  let s := store_of ((Insert "a" (AInt 1);; Insert "b" (AInt 2)) (New true)) in
  exists keys : gmap string bool,
    GetKeyMap s = (Done keys, s, []) /\
    forall x, keys !! x = (fun _ => true) <$> (data s !! AString x).
Proof.
  intros s. apply (X7_GetKeyMap_is_key_set s).
  unfold string_keys. apply (bool_decide_unpack _). vm_compute. exact I.
Defined.

(** ** Registering callbacks *)

(** X8.  The callback setters replace the callbacks used from then on and
    touch nothing else: after registering [fi], [fu] and [fr] for insert,
    update and remove, the calls [Insert(k, v1)], [Insert(k, v2)],
    [Remove(k)] on a store where [k] is absent call [fi] with [(k, v1)],
    then [fu] with [(k, v2)], then [fr] with [(k, v2)], and leave the
    mapping and the counter where they started, up to the wrap-around of
    the counter. *)
Theorem X8_registered_callbacks_are_called s (fi fu fr : callback)
    (k : string) (v1 v2 : any) :
  held s = false -> data s !! AString k = None ->
  let r := (OnInsertHandler (Some fi);; OnUpdateHandler (Some fu);;
            OnRemoveHandler (Some fr);;
            Insert k v1;; Insert k v2;; Remove (AString k)) s in
  outcome_of r = Done true /\
  events_of r = [Call fi k v1; Call fu k v2; Call fr k v2] /\
  data (store_of r) = data s /\
  count (store_of r) = ((count s + 1) mod uint64_mod - 1) mod uint64_mod.
Proof.
  intros Hfree Hk r. subst r.
  rewrite (bind_Done_nil _ _ s tt _ eq_refl).
  rewrite (bind_Done_nil _ _ _ tt _ eq_refl).
  rewrite (bind_Done_nil _ _ _ tt _ eq_refl).
  match goal with |- context [(Insert k v1 ≫= _) ?s0] => set (s1 := s0) end.
  assert (Hfree1 : held s1 = false) by (by destruct s).
  assert (Hk1 : data s1 !! AString k = None) by (by destruct s).
  rewrite (bind_Done _ _ _ _ _ _
             (Insert_absent s1 Hfree1 k v1 fi Hk1 eq_refl)).
  set (s2 := updated_store _ _ s1).
  assert (Hfree2 : held s2 = false) by (by destruct s).
  assert (Hk2 : data s2 !! AString k = Some v1) by apply lookup_insert_eq.
  rewrite (bind_Done _ _ _ _ _ _
             (Insert_present s2 Hfree2 k v2 v1 fu Hk2 eq_refl)).
  set (s3 := set_data _ s2).
  assert (Hfree3 : held s3 = false) by (by destruct s).
  assert (Hk3 : data s3 !! AString k = Some v2) by apply lookup_insert_eq.
  rewrite (Remove_present_string s3 Hfree3 k v2 fr Hk3 eq_refl).
  cbn [outcome_of store_of events_of fst snd app].
  repeat split.
  cbn. rewrite insert_insert_eq, delete_insert_eq.
  apply delete_id. by destruct s.
Qed.

Lemma X8_registered_callbacks_are_called_witness :
  events_of ((OnInsertHandler (Some (handler 1));;
              OnUpdateHandler (Some (handler 2));;
              OnRemoveHandler (Some (handler 3));;
              Insert "k" (AInt 1);; Insert "k" (AInt 2);;
              Remove (AString "k")) (New true)) =
  [Call (handler 1) "k" (AInt 1); Call (handler 2) "k" (AInt 2);
   Call (handler 3) "k" (AInt 2)].
Proof.
  apply (X8_registered_callbacks_are_called (New true) (handler 1) (handler 2)
           (handler 3) "k" (AInt 1) (AInt 2) eq_refl eq_refl).
Defined.

(** * Further properties of the batch executor *)

Lemma do_eq j b s :
  held s = false ->
  do j b s = (Done (batch_after j s b), store_after j s, []).
Proof.
  intros Hfree. destruct j as [m k v]. unfold batch_after, store_after.
  cbn [method key value].
  destruct m, (data s !! k) as [w|] eqn:Hk.
  - by eapply do_insert_present.
  - by eapply do_insert_absent.
  - by eapply do_unique_present.
  - by eapply do_unique_absent.
  - by eapply do_remove_present.
  - by eapply do_remove_absent.
Qed.

Lemma store_after_frame j s :
  exists n m, store_after j s = updated_store n m s.
Proof.
  unfold store_after.
  destruct (method j), (data s !! key j); eauto using set_data_updated;
    exists (count s), (data s); by rewrite updated_store_id.
Qed.

Lemma jobs_batch_after j s b : jobs (batch_after j s b) = jobs b.
Proof. unfold batch_after. by destruct (method j), (data s !! key j). Qed.

Lemma run_jobs_total l : forall b s,
  held s = false ->
  exists b1 n m,
    run_jobs l b s = (Done b1, updated_store n m s, []) /\ jobs b1 = jobs b.
Proof.
  induction l as [|j l IH]; intros b s Hfree.
  - exists b, (count s), (data s). by rewrite updated_store_id.
  - rewrite (run_jobs_cons _ _ _ _ _ _ (do_eq j b s Hfree)).
    destruct (store_after_frame j s) as (n & m & ->).
    destruct (IH (batch_after j s b) (updated_store n m s)) as (b1 & n1 & m1 & Hrun & Hjobs);
      [by destruct s|].
    exists b1, n1, m1. rewrite Hrun, updated_store_twice.
    split; [done|]. by rewrite Hjobs, jobs_batch_after.
Qed.

Lemma Execute_returns `{Scheduler} s b :
  held s = false ->
  exists b1 n m,
    Execute b s =
    (Done b1, updated_store n m s,
     batch_call (onBatchInsert s) (created b1) ++
     batch_call (onBatchUpdate s) (updated b1) ++
     batch_call (onBatchRemove s) (deleted b1)) /\
    jobs b1 = jobs b.
Proof.
  intros Hfree.
  destruct (run_jobs_total (schedule (jobs b)) b s Hfree)
    as (b1 & n & m & Hrun & Hjobs).
  exists b1, n, m. split; [|done].
  by rewrite (Execute_eq b s b1 _ Hrun).
Qed.



Lemma count_agrees_store_after j s :
  count_agrees s -> count_agrees (store_after j s).
Proof.
  unfold count_agrees, store_after. intros Hc.
  destruct (method j), (data s !! key j) as [w|] eqn:Hk; cbn; try done.
  - by rewrite map_size_insert_Some.
  - rewrite map_size_insert_None by done. rewrite Hc, Zplus_mod_idemp_l.
    f_equal. lia.
  - rewrite map_size_insert_None by done. rewrite Hc, Zplus_mod_idemp_l.
    f_equal. lia.
  - rewrite Hc, Zminus_mod_idemp_l. f_equal.
    assert (size (data s) ≠ 0%nat).
    { intros H0%map_size_empty_inv. by rewrite H0, lookup_empty in Hk. }
    rewrite map_size_delete_Some by done. lia.
Qed.

Lemma held_store_after j s : held (store_after j s) = held s.
Proof. destruct (store_after_frame j s) as (n & m & ->). by destruct s. Qed.

Lemma run_jobs_count_agrees l : forall b s,
  held s = false -> count_agrees s ->
  count_agrees (store_of (run_jobs l b s)).
Proof.
  induction l as [|j l IH]; intros b s Hfree Hc; [done|].
  rewrite (run_jobs_cons _ _ _ _ _ _ (do_eq j b s Hfree)).
  apply IH; [by rewrite held_store_after|by apply count_agrees_store_after].
Qed.

(** X10.  On a lockable store, whose mutex lets one job at a time through
    [insert] and [remove], a batch keeps the counter in step with the
    mapping: if [Len] was the number of keys before [Execute], it is the
    number of keys afterwards, whatever the jobs, their keys and their
    order. *)
Theorem X10_Execute_keeps_count `{Scheduler} s b :
  cond s = Some false -> count_agrees s ->
  count_agrees (store_of (Execute b s)).
Proof.
  intros Hc Hcount.
  assert (Hfree : held s = false) by (unfold held; by rewrite Hc).
  destruct (run_jobs (schedule (jobs b)) b s) as [[o s1] e] eqn:Hrun.
  pose proof (run_jobs_count_agrees (schedule (jobs b)) b s Hfree Hcount) as H1.
  destruct (run_jobs_total (schedule (jobs b)) b s Hfree)
    as (b1 & n & m & Hrun1 & _).
  rewrite Hrun1 in H1. by rewrite (Execute_eq b s b1 _ Hrun1).
Qed.

Lemma X10_Execute_keeps_count_witness :
  count_agrees (store_of (Execute
    (batch_Remove (AString "a") (batch_Insert (AInt 1) (AInt 2)
       (batch_InsertUnique (AString "a") (AInt 1) Batch))) (New true))).
Proof.
  apply (X10_Execute_keeps_count (New true)); reflexivity.
Defined.

(** ** Jobs on different keys *)

Lemma inc_dec_commute c :
  ((c - 1) mod uint64_mod + 1) mod uint64_mod =
  ((c + 1) mod uint64_mod - 1) mod uint64_mod.
Proof.
  rewrite Zplus_mod_idemp_l, Zminus_mod_idemp_l. f_equal. lia.
Qed.

Lemma lookup_store_after_ne j s k :
  key j ≠ k -> data (store_after j s) !! k = data s !! k.
Proof.
  intros Hne. unfold store_after.
  destruct (method j), (data s !! key j); cbn;
    rewrite ?lookup_insert_ne, ?lookup_delete_ne by done; done.
Qed.

Ltac commute_maps :=
  first [ reflexivity
        | apply inc_dec_commute
        | symmetry; apply inc_dec_commute
        | apply insert_insert_ne; congruence
        | apply delete_delete
        | apply delete_insert_ne; congruence
        | symmetry; apply delete_insert_ne; congruence ].

(** Two jobs on different keys have the same effect in either order. *)
Lemma jobs_commute j1 j2 b s :
  key j1 ≠ key j2 ->
  store_after j2 (store_after j1 s) = store_after j1 (store_after j2 s) /\
  batch_after j2 (store_after j1 s) (batch_after j1 s b) =
  batch_after j1 (store_after j2 s) (batch_after j2 s b).
Proof.
  intros Hne.
  assert (H12 : data (store_after j1 s) !! key j2 = data s !! key j2)
    by by apply lookup_store_after_ne.
  assert (H21 : data (store_after j2 s) !! key j1 = data s !! key j1)
    by (apply lookup_store_after_ne; congruence).
  unfold store_after at 1 3, batch_after at 1 3. rewrite H12, H21.
  unfold store_after, batch_after.
  destruct j1 as [m1 k1 v1], j2 as [m2 k2 v2]. cbn [method key value] in *.
  destruct s as [c n oi ou orm obi obu obr d]. cbn [data count] in *.
  destruct m1, m2, (d !! k1) as [w1|], (d !! k2) as [w2|];
    (split; unfold updated_store, set_data, set_count; cbn; f_equal;
     commute_maps).
Qed.

Lemma run_jobs_Permutation l l' :
  l ≡ₚ l' -> NoDup (key <$> l) ->
  forall b s, held s = false -> run_jobs l b s = run_jobs l' b s.
Proof.
  induction 1 as [|j l l' Hperm IH|j1 j2 l|l l' l'' Hp1 IH1 Hp2 IH2];
    intros Hnd b s Hfree.
  - done.
  - rewrite !(run_jobs_cons _ _ _ _ _ _ (do_eq j b s Hfree)).
    cbn in Hnd. apply NoDup_cons in Hnd as [_ Hnd].
    apply IH; [done|by rewrite held_store_after].
  - cbn in Hnd. apply NoDup_cons in Hnd as [Hne _].
    assert (key j1 ≠ key j2).
    { intros Heq. apply Hne. rewrite Heq. by left. }
    assert (Hf1 : held (store_after j1 s) = false) by by rewrite held_store_after.
    assert (Hf2 : held (store_after j2 s) = false) by by rewrite held_store_after.
    rewrite (run_jobs_cons _ _ _ _ _ _ (do_eq j1 b s Hfree)).
    rewrite (run_jobs_cons _ _ _ _ _ _ (do_eq j2 _ _ Hf1)).
    rewrite (run_jobs_cons _ _ _ _ _ _ (do_eq j2 b s Hfree)).
    rewrite (run_jobs_cons _ _ _ _ _ _ (do_eq j1 _ _ Hf2)).
    destruct (jobs_commute j1 j2 b s) as [-> ->]; done.
  - rewrite IH1 by done. apply IH2; [|done]. by rewrite <- Hp1.
Qed.

Lemma bind_congr {A B} (m1 m2 : M A) (f : A -> M B) s :
  m1 s = m2 s -> (m1 ≫= f) s = (m2 ≫= f) s.
Proof. intros Hm. unfold mbind, M_bind, bind. by rewrite Hm. Qed.

(** X11.  When the jobs of a batch have pairwise different keys, the order
    in which the jobs run does not matter: the result sets, the store and
    the callback calls of [Execute] are the same under any two schedules. *)
Theorem X11_distinct_keys_schedule_independent (S1 S2 : Scheduler) s b :
  held s = false -> NoDup (key <$> jobs b) ->
  @Execute S1 b s = @Execute S2 b s.
Proof.
  intros Hfree Hnd. unfold Execute. apply bind_congr.
  apply run_jobs_Permutation; [|by rewrite schedule_perm|done].
  by rewrite !schedule_perm.
Qed.

Lemma reverse_order_perm (l : list job) : reverse l ≡ₚ l.
Proof. apply reverse_Permutation. Qed.

Lemma X11_distinct_keys_schedule_independent_witness :
  let b := batch_Remove (AString "c") (batch_Insert (AString "b") (AInt 2)
             (batch_InsertUnique (AString "a") (AInt 1) Batch)) in
  @Execute queue_order b (New true) =
  @Execute (Build_Scheduler reverse reverse_order_perm) b (New true).
Proof.
  intros b.
  apply (X11_distinct_keys_schedule_independent queue_order
           (Build_Scheduler reverse reverse_order_perm) (New true) b);
    [reflexivity|].
  apply (bool_decide_unpack _). vm_compute. exact I.
Defined.

(** ** Executing a batch again *)

Lemma batch_after_grows j s b :
  dom (created b) ⊆ dom (created (batch_after j s b)) /\
  dom (updated b) ⊆ dom (updated (batch_after j s b)) /\
  dom (deleted b) ⊆ dom (deleted (batch_after j s b)).
Proof.
  unfold batch_after.
  destruct (method j), (data s !! key j); cbn;
    rewrite ?dom_insert_L; set_solver.
Qed.

Lemma run_jobs_grows l : forall b s,
  held s = false ->
  exists b1 s1,
    run_jobs l b s = (Done b1, s1, []) /\
    dom (created b) ⊆ dom (created b1) /\
    dom (updated b) ⊆ dom (updated b1) /\
    dom (deleted b) ⊆ dom (deleted b1).
Proof.
  induction l as [|j l IH]; intros b s Hfree.
  - by exists b, s.
  - rewrite (run_jobs_cons _ _ _ _ _ _ (do_eq j b s Hfree)).
    destruct (IH (batch_after j s b) (store_after j s))
      as (b1 & s1 & Hrun & Hc & Hu & Hd); [by rewrite held_store_after|].
    destruct (batch_after_grows j s b) as (Hc0 & Hu0 & Hd0).
    exists b1, s1. split; [done|]. set_solver.
Qed.

(** X12.  [Execute] does not reset the batch: the batch it leaves still
    holds the queue and the result sets.  Executing that batch again runs
    every job again, keeps every key of the earlier result sets, and calls
    the batch-insert callback again with a created set that still has all
    the keys created by the first run. *)
Theorem X12_second_Execute_reports_again `{Scheduler} s b b1
    (f : batchCallback) :
  held s = false -> onBatchInsert s = Some f ->
  outcome_of (Execute b s) = Done b1 -> created b1 <> ∅ ->
  exists b2,
    outcome_of (Execute b1 (store_of (Execute b s))) = Done b2 /\
    jobs b2 = jobs b /\
    dom (created b1) ⊆ dom (created b2) /\
    dom (updated b1) ⊆ dom (updated b2) /\
    dom (deleted b1) ⊆ dom (deleted b2) /\
    CallBatch f (created b2) ∈
      events_of (Execute b1 (store_of (Execute b s))).
Proof.
  intros Hfree Hf Hout Hne.
  destruct (Execute_returns s b Hfree) as (b1' & n & m & Hex & Hjobs).
  rewrite Hex in Hout |- *. cbn [outcome_of store_of fst snd] in *.
  injection Hout as ->.
  set (s1 := updated_store n m s).
  assert (Hfree1 : held s1 = false) by (by destruct s).
  destruct (run_jobs_grows (schedule (jobs b1)) b1 s1 Hfree1)
    as (b2 & s2 & Hrun & Hc & Hu & Hd).
  destruct (run_jobs_total (schedule (jobs b1)) b1 s1 Hfree1)
    as (b2' & n2 & m2 & Hrun2 & Hjobs2).
  rewrite Hrun in Hrun2. injection Hrun2 as <- ->.
  rewrite (Execute_eq b1 s1 b2 _ Hrun). cbn [outcome_of events_of fst snd].
  exists b2. repeat split; try done; [congruence|].
  replace (onBatchInsert (updated_store n2 m2 s1)) with (Some f)
    by (by destruct s).
  assert (Hne2 : created b2 ≠ ∅).
  { intros Hempty. apply Hne. apply dom_empty_iff_L.
    rewrite Hempty, dom_empty_L in Hc. set_solver. }
  unfold batch_call at 1. rewrite decide_False by done. by left.
Qed.

Lemma X12_second_Execute_reports_again_witness :
  let b := batch_Insert (AString "k") (AInt 1) Batch in
  let b1 := mkBatch (jobs b) {[AString "k" := AInt 1]} ∅ ∅ in
  exists b2,
    outcome_of (Execute b1 (store_of (Execute b (New true)))) = Done b2 /\
    jobs b2 = jobs b /\
    dom (created b1) ⊆ dom (created b2) /\
    dom (updated b1) ⊆ dom (updated b2) /\
    dom (deleted b1) ⊆ dom (deleted b2) /\
    CallBatch defaultBatchCallback (created b2) ∈
      events_of (Execute b1 (store_of (Execute b (New true)))).
Proof.
  intros b b1.
  apply (X12_second_Execute_reports_again (New true) b b1 defaultBatchCallback);
    [reflexivity | reflexivity | vm_compute; reflexivity |].
  apply (bool_decide_unpack _). vm_compute. exact I.
Defined.

(** * Further properties of WaitForDataChange *)

Lemma coherent_next a st st1 :
  is_lockable st = true -> coherent st = true -> next a st = Some st1 ->
  coherent st1 = true /\ is_lockable st1 = true.
Proof.
  intros Hl Hc Hnext. destruct st as [l c h m d w]. cbn in Hl. subst l.
  destruct a, c, h, m, d, w; cbn in *;
    try discriminate; injection Hnext as <-; by split.
Qed.

Lemma coherent_run acts : forall st st1,
  is_lockable st = true -> coherent st = true -> run acts st = Some st1 ->
  coherent st1 = true /\ is_lockable st1 = true.
Proof.
  induction acts as [|a acts IH]; intros st st1 Hl Hc Hrun.
  - cbn in Hrun. by injection Hrun as <-.
  - cbn [run] in Hrun. destruct (next a st) as [st2|] eqn:Hnext; [|done].
    destruct (coherent_next a st st2 Hl Hc Hnext) as [Hc2 Hl2].
    by apply (IH st2).
Qed.

Lemma coherent_reachable acts cancelled st :
  run acts (init true cancelled) = Some st ->
  coherent st = true /\ is_lockable st = true.
Proof. by apply coherent_run. Qed.

(** X13.  On a lockable store [WaitForDataChange] never returns on its own:
    in every interleaving of the caller, its helper, cancellations and
    notifications, the caller has returned only if the context was
    cancelled or [NotifyDidChange] was called. *)
Theorem X13_return_needs_wakeup acts cancelled st :
  run acts (init true cancelled) = Some st -> caller st = CallerReturned ->
  ctx_done st = true \/ ANotify ∈ acts.
Proof. apply returns_only_after_wakeup. Qed.

Lemma X13_return_needs_wakeup_witness :
  exists st,
    run [ACaller; ACaller; ACaller; ANotify; ACaller; ACaller; ACaller]
        (init true false) = Some st /\
    (ctx_done st = true \/
     ANotify ∈ [ACaller; ACaller; ACaller; ANotify; ACaller; ACaller; ACaller]).
Proof.
  eexists. split; [reflexivity|].
  eapply (X13_return_needs_wakeup _ false); reflexivity.
Defined.

(** X14.  The helper goroutine is not leaked: in every state in which the
    caller has returned, the helper has exited or its remaining statements
    can all run, after which it has exited and the mutex is free.  When the
    caller was woken by a notification, this is the [case <-wait] of the
    select. *)
Theorem X14_helper_not_leaked acts cancelled st :
  run acts (init true cancelled) = Some st -> caller st = CallerReturned ->
  exists acts1 st1,
    Forall (fun a => a = AHelper \/ a = ASelectWait) acts1 /\
    run acts1 st = Some st1 /\
    helper st1 = HelperExited /\ mutex st1 = Free /\
    caller st1 = CallerReturned.
Proof.
  intros Hrun Hret.
  destruct (coherent_reachable acts cancelled st Hrun) as [Hc Hl].
  destruct st as [l c h m d w]. cbn in Hret, Hl. subst c l.
  assert (Hsteps : forall acts1 st1,
            Forall (fun a => a = AHelper \/ a = ASelectWait) acts1 ->
            run acts1 (mkState true CallerReturned h m d w) = Some st1 ->
            helper st1 = HelperExited -> mutex st1 = Free ->
            caller st1 = CallerReturned ->
            exists acts1 st1,
              Forall (fun a => a = AHelper \/ a = ASelectWait) acts1 /\
              run acts1 (mkState true CallerReturned h m d w) = Some st1 /\
              helper st1 = HelperExited /\ mutex st1 = Free /\
              caller st1 = CallerReturned).
  { intros acts1 st1 ? ? ? ? ?. by exists acts1, st1. }
  destruct h, m, w; try discriminate Hc.
  - eapply (Hsteps [ASelectWait]); [auto|reflexivity|done..].
  - eapply (Hsteps [AHelper; AHelper; AHelper]); [auto|reflexivity|done..].
  - eapply (Hsteps [AHelper; AHelper; AHelper]); [auto|reflexivity|done..].
  - eapply (Hsteps [AHelper; AHelper]); [auto|reflexivity|done..].
  - eapply (Hsteps [AHelper; AHelper]); [auto|reflexivity|done..].
  - eapply (Hsteps [AHelper]); [auto|reflexivity|done..].
  - eapply (Hsteps [AHelper]); [auto|reflexivity|done..].
  - eapply (Hsteps []); [auto|reflexivity|done..].
  - eapply (Hsteps []); [auto|reflexivity|done..].
Qed.

Lemma X14_helper_not_leaked_witness :
  exists st,
    run [ACaller; ACaller; ACaller; ANotify; ACaller; ACaller; ACaller]
        (init true false) = Some st /\
    exists acts1 st1,
      Forall (fun a => a = AHelper \/ a = ASelectWait) acts1 /\
      run acts1 st = Some st1 /\
      helper st1 = HelperExited /\ mutex st1 = Free /\
      caller st1 = CallerReturned.
Proof.
  eexists. split; [reflexivity|].
  eapply (X14_helper_not_leaked
            [ACaller; ACaller; ACaller; ANotify; ACaller; ACaller; ACaller]
            false); reflexivity.
Defined.

(** X15.  A cancellation that comes while the caller is suspended in
    [Wait] and the helper is still at its select does end the call: the
    helper takes [<-ctx.Done()], locks, broadcasts and unlocks, and the
    caller wakes, sends on [wait], unlocks and returns, leaving the mutex
    free and no goroutine behind. *)
Theorem X15_cancel_wakes_waiting_caller acts cancelled st :
  run acts (init true cancelled) = Some st ->
  caller st = CallerWaiting -> helper st = HelperSelect ->
  exists st1,
    run [ACancel; ASelectDone; AHelper; AHelper; AHelper;
         ACaller; ACaller; ACaller] st = Some st1 /\
    caller st1 = CallerReturned /\ helper st1 = HelperExited /\
    mutex st1 = Free.
Proof.
  intros Hrun Hcaller Hhelper.
  destruct (coherent_reachable acts cancelled st Hrun) as [Hc Hl].
  destruct st as [l c h m d w]. cbn in Hcaller, Hhelper, Hl. subst c h l.
  destruct m, w; try discriminate Hc.
  eexists. split; [reflexivity|done].
Qed.

Lemma X15_cancel_wakes_waiting_caller_witness :
  exists st1,
    run [ACancel; ASelectDone; AHelper; AHelper; AHelper;
         ACaller; ACaller; ACaller]
        (mkState true CallerWaiting HelperSelect Free false false) =
      Some st1 /\
    caller st1 = CallerReturned /\ helper st1 = HelperExited /\
    mutex st1 = Free.
Proof.
  apply (X15_cancel_wakes_waiting_caller [ACaller; ACaller; ACaller] false
           (mkState true CallerWaiting HelperSelect Free false false));
    reflexivity.
Defined.

(** X16.  Once woken, the call cannot block again: in every state in which
    the caller has been woken and has not returned yet, the caller or the
    helper can run its next statement; and every statement that one of the
    two runs brings the end of both nearer, so the caller returns after at
    most [remaining] further statements. *)
Theorem X16_woken_caller_progresses acts cancelled st :
  run acts (init true cancelled) = Some st ->
  woken st = true -> caller st <> CallerReturned ->
  (exists a st1, own_action a = true /\ next a st = Some st1) /\
  (forall a st1, own_action a = true -> next a st = Some st1 ->
     (remaining st1 < remaining st)%nat).
Proof.
  intros Hrun Hw Hret.
  destruct (coherent_reachable acts cancelled st Hrun) as [Hc Hl].
  destruct st as [l c h m d w]. cbn in Hl. subst l. split.
  - destruct c, h, m, d, w; try discriminate Hc; try discriminate Hw;
      try done;
      first [ by exists ACaller; eexists
            | by exists AHelper; eexists ].
  - intros a st1 Ha Hnext.
    destruct a, c, h, m, d, w; cbn in *;
      try discriminate; injection Hnext as <-; cbn; lia.
Qed.

Lemma X16_woken_caller_progresses_witness :
  exists st,
    run [ACaller; ACaller; ACaller; ANotify] (init true false) = Some st /\
    (exists a st1, own_action a = true /\ next a st = Some st1) /\
    (forall a st1, own_action a = true -> next a st = Some st1 ->
       (remaining st1 < remaining st)%nat).
Proof.
  eexists. split; [reflexivity|].
  eapply (X16_woken_caller_progresses [ACaller; ACaller; ACaller; ANotify]
            false); [reflexivity|reflexivity|done].
Defined.

(** * What a batch with different keys reports *)





